(** * GenericAssembler: a shallow embedding of
      [src/gtnh/assembler/generic_assembler.py]

    The assembler packs the mods and the config of one release into a zip
    archive, for one side.  Python dictionaries whose iteration order is
    observed are association lists, dictionaries that are only indexed are
    [gmap]s, Python sets are [gset]s, exceptions are an explicit outcome, and
    the file system, the open [ZipFile] objects and the logger live in an
    explicit machine state threaded by a small monad. *)

From Stdlib Require Import QArith Ascii.
From stdpp Require Import base decidable countable gmap list strings.

Local Close Scope Q_scope.
Local Open Scope string_scope.
Local Open Scope list_scope.

(** ** Enumerations of [gtnh.defs] *)

(** Modelled from the spec: [gtnh.defs.Side], the enum {CLIENT, SERVER, BOTH}
    of section 3 (the module is imported by the source, not part of it). *)
Inductive Side := CLIENT | SERVER | BOTH.

(** Modelled from the spec: [gtnh.defs.ModSource], with one member for the
    primary source ([ModSource.github], the only member the source names) and
    one for the external source of mods. *)
Inductive ModSource := github | other.

#[global] Instance Side_eq_dec : EqDecision Side.
Proof. solve_decision. Defined.

#[global] Instance ModSource_eq_dec : EqDecision ModSource.
Proof. solve_decision. Defined.

Definition Side_to_nat (s : Side) : nat :=
  match s with CLIENT => 0 | SERVER => 1 | BOTH => 2 end.

Definition Side_of_nat (n : nat) : option Side :=
  match n with
  | 0 => Some CLIENT
  | 1 => Some SERVER
  | 2 => Some BOTH
  | _ => None
  end.

#[global] Instance Side_countable : Countable Side.
Proof.
  apply (inj_countable Side_to_nat Side_of_nat).
  intros []; reflexivity.
Defined.

(** ** Exceptions and outcomes *)

Definition Path := string.

Inductive exn :=
| AssertionError
| KeyError (k : Side)
| TypeError
| Exception (msg : string)
| FileNotFoundError (p : Path)
| IsADirectoryError (p : Path)
| NotADirectoryError (p : Path)
| BadZipFile (p : Path)
| ValueError (msg : string).

Inductive outcome (A : Type) :=
| Return (a : A)
| Raise (e : exn).
Arguments Return {A} a.
Arguments Raise {A} e.

(** ** The machine: file system, open [ZipFile] objects, logger *)

(** A zip member: its name and its data. *)
Definition member := (string * string)%type.

(** What a path of the file system holds. *)
Inductive node :=
| ZipArchive (members : list member)
| OtherFile (content : string)
| Directory.

Inductive zip_mode := mode_r | mode_w.

Inductive zip_compression := ZIP_STORED | ZIP_DEFLATED.

(** [zipfile.ZipFile.__init__(file, mode='r', compression=ZIP_STORED, ...)]:
    the compression of a [ZipFile] opened without the keyword. *)
Definition ZipFile_default_compression : zip_compression := ZIP_STORED.

(** An open [ZipFile]: [zf_filelist] is the directory it holds in memory,
    read from the file when it is opened for reading and empty when it is
    opened for writing. *)
Record ZipFile := {
  zf_filename : Path;
  zf_mode : zip_mode;
  zf_compression : zip_compression;
  zf_filelist : list member
}.

Inductive log_level := INFO | WARN.

(** What a run does to the outside, in order. *)
Inductive event :=
| Log (level : log_level) (msg : string)
| OsRemove (p : Path)
| ZipOpen (h : nat) (p : Path) (mode : zip_mode) (compression : zip_compression)
| ZipWrite (h : nat) (name : string)
| ZipClose (h : nat)
| Progress (cb : nat) (value : Q) (label : string).

(** [objects] holds the identities of the assembler objects built so far
    and [delta_progress] the attribute of that name of each of them. *)
Record Machine := {
  delta_progress : nat -> Q;
  objects : gset nat;
  fs : gmap Path node;
  opened : gmap nat ZipFile
}.

(** [obj.delta_progress = q], for the object of identity [obj]. *)
Definition set_delta_progress (obj : nat) (q : Q) (m : Machine) : Machine :=
  {| delta_progress := fun o => if bool_decide (o = obj) then q else delta_progress m o;
     objects := objects m; fs := fs m; opened := opened m |}.
Definition add_object (obj : nat) (m : Machine) : Machine :=
  {| delta_progress := delta_progress m; objects := {[ obj ]} ∪ objects m;
     fs := fs m; opened := opened m |}.
Definition set_fs (f : gmap Path node) (m : Machine) : Machine :=
  {| delta_progress := delta_progress m; objects := objects m;
     fs := f; opened := opened m |}.
Definition set_opened (o : gmap nat ZipFile) (m : Machine) : Machine :=
  {| delta_progress := delta_progress m; objects := objects m;
     fs := fs m; opened := o |}.

(** A computation reads and writes the machine, returns or raises, and
    appends to the trace of events; it cannot take events back. *)
Definition M (A : Type) : Type := Machine -> outcome A * Machine * list event.

Definition ret {A} (a : A) : M A := fun m => (Return a, m, []).

Definition raise {A} (e : exn) : M A := fun m => (Raise e, m, []).

Definition bind {A B} (c : M A) (k : A -> M B) : M B :=
  fun m =>
    match c m with
    | (Return a, m1, t1) =>
        match k a m1 with
        | (r, m2, t2) => (r, m2, t1 ++ t2)
        end
    | (Raise e, m1, t1) => (Raise e, m1, t1)
    end.

Definition lift {A} (o : outcome A) : M A :=
  match o with
  | Return a => ret a
  | Raise e => raise e
  end.

Definition emit (e : event) : M unit := fun m => (Return tt, m, [e]).

Declare Scope machine_scope.
Delimit Scope machine_scope with machine.
Notation "x <- c ;; k" := (bind c (fun x => k))
  (at level 100, c at next level, right associativity) : machine_scope.
Notation "c ;; k" := (bind c (fun _ => k))
  (at level 100, right associativity) : machine_scope.
Local Open Scope machine_scope.

(** [log.info], [log.warn] *)
Definition log_info (msg : string) : M unit := emit (Log INFO msg).
Definition log_warn (msg : string) : M unit := emit (Log WARN msg).

(** [os.path.exists]: true for anything [os.stat] finds, a directory too. *)
Definition os_path_exists (p : Path) : M bool :=
  fun m => (Return (bool_decide (is_Some (fs m !! p))), m, []).

(** [os.remove]: unlinks a file, raises on a missing path or a directory. *)
Definition os_remove (p : Path) : M unit :=
  fun m =>
    match fs m !! p with
    | None => (Raise (FileNotFoundError p), m, [])
    | Some Directory => (Raise (IsADirectoryError p), m, [])
    | Some _ => (Return tt, set_fs (delete p (fs m)) m, [OsRemove p])
    end.

(** [posixpath.dirname]: the path up to its last slash, without the slashes
    that end it unless it is made of slashes only. *)
Fixpoint all_slashes (s : string) : bool :=
  match s with
  | "" => true
  | String c s' => bool_decide (c = "/"%char) && all_slashes s'
  end.

Fixpoint rstrip_slashes (s : string) : string :=
  match s with
  | "" => ""
  | String c s' =>
      let r := rstrip_slashes s' in
      if bool_decide (c = "/"%char) && bool_decide (r = "") then ""
      else String c r
  end.

Fixpoint head_to_last_slash (s : string) : string :=
  match s with
  | "" => ""
  | String c s' =>
      let h := head_to_last_slash s' in
      if bool_decide (h = "") then
        if bool_decide (c = "/"%char) then "/" else ""
      else String c h
  end.

Definition posixpath_dirname (p : Path) : Path :=
  let head := head_to_last_slash p in
  if all_slashes head then head else rstrip_slashes head.

(** The error of creating a file at [file], from the directory it is to be
    in: that directory has to be there and to be a directory.  The working
    directory (a [file] without slash) and the root are always there. *)
Definition parent_error (f : gmap Path node) (file : Path) : option exn :=
  let parent := posixpath_dirname file in
  if all_slashes parent then None
  else
    match f !! parent with
    | Some Directory => None
    | Some _ => Some (NotADirectoryError file)
    | None => Some (FileNotFoundError file)
    end.

(** The error, if any, of opening [file] for writing: a directory cannot be
    opened, a file that is there is truncated, and a new file needs its
    directory. *)
Definition open_for_writing_error (f : gmap Path node) (file : Path)
    : option exn :=
  match f !! file with
  | Some Directory => Some (IsADirectoryError file)
  | Some _ => None
  | None => parent_error f file
  end.

(** [ZipFile(file, mode, compression)]: mode "r" reads the directory of an
    existing archive, mode "w" creates or truncates the file.  The new object
    is known by a handle no open [ZipFile] has. *)
Definition ZipFile_open (file : Path) (mode : zip_mode)
    (compression : zip_compression) : M nat :=
  fun m =>
    let h := fresh (dom (opened m)) in
    match mode with
    | mode_r =>
        match fs m !! file with
        | None => (Raise (FileNotFoundError file), m, [])
        | Some Directory => (Raise (IsADirectoryError file), m, [])
        | Some (OtherFile _) => (Raise (BadZipFile file), m, [])
        | Some (ZipArchive members) =>
            let zf := {| zf_filename := file; zf_mode := mode_r;
                         zf_compression := compression; zf_filelist := members |} in
            (Return h, set_opened (<[h := zf]> (opened m)) m,
             [ZipOpen h file mode_r compression])
        end
    | mode_w =>
        match open_for_writing_error (fs m) file with
        | Some e => (Raise e, m, [])
        | None =>
            let zf := {| zf_filename := file; zf_mode := mode_w;
                         zf_compression := compression; zf_filelist := [] |} in
            (Return h,
             set_opened (<[h := zf]> (opened m))
               (set_fs (<[file := ZipArchive []]> (fs m)) m),
             [ZipOpen h file mode_w compression])
        end
    end.

(** [ZipFile.close]: releases the file; closing twice is harmless. *)
Definition ZipFile_close (h : nat) : M unit :=
  fun m => (Return tt, set_opened (delete h (opened m)) m, [ZipClose h]).

(** [ZipFile.namelist] *)
Definition ZipFile_namelist (h : nat) : M (list string) :=
  fun m =>
    match opened m !! h with
    | Some zf => (Return (map fst (zf_filelist zf)), m, [])
    | None => (Raise (ValueError "Attempt to use ZIP archive that was already closed"), m, [])
    end.

(** [with ZipFile(file, mode, compression) as z: body]: [__exit__] closes the
    object whether the body returns or raises, and an exception of the body
    goes on to the caller. *)
Definition with_ZipFile {A} (file : Path) (mode : zip_mode)
    (compression : zip_compression) (body : nat -> M A) : M A :=
  fun m =>
    match ZipFile_open file mode compression m with
    | (Return h, m1, t1) =>
        match body h m1 with
        | (r, m2, t2) =>
            match ZipFile_close h m2 with
            | (_, m3, t3) => (r, m3, t1 ++ t2 ++ t3)
            end
        end
    | (Raise e, m1, t1) => (Raise e, m1, t1)
    end.

(** ** The objects the assembler reads *)

Section Assembler.

(** [GTNHModInfo | ExternalModInfo] and [GTNHVersion] are pydantic models the
    assembler never looks into; instances of both are truthy. *)
Variables ModInfo GTNHVersion : Type.

(** [GTNHConfig]: the only member used is the method [get_version]. *)
Record GTNHConfig := {
  get_version : string -> option GTNHVersion
}.

(** [modpack_manager.assets] *)
Record AvailableAssets := {
  config : GTNHConfig;
  get_mod_and_version :
    string -> string -> gset Side -> ModSource -> option (ModInfo * GTNHVersion)
}.

(** [modpack_manager.mod_pack] *)
Record GTNHModpack := {
  client_exclusions : list string;
  server_exclusions : list string
}.

Record GTNHModpackManager := {
  assets : AvailableAssets;
  mod_pack : GTNHModpack
}.

(** [GTNHRelease]: the two mod dictionaries are iterated with [.items()], so
    they are kept as association lists in iteration order. *)
Record GTNHRelease := {
  release_config : string;
  github_mods : list (string * string);
  external_mods : list (string * string)
}.

(** A progress callback is an opaque callable, known by its identity. *)
Definition Callback := nat.

(** The attributes [__init__] binds and no method rebinds, with the identity
    of the object.  The one mutable attribute, [delta_progress], lives in
    the machine, under that identity. *)
Record GenericAssembler := {
  object_id : nat;
  modpack_manager : GTNHModpackManager;
  release : GTNHRelease;
  global_progress_callback : option Callback;
  task_progress_callback : option Callback;
  exclusions : gmap Side (list string)
}.

(** ** Pure methods *)

(** [filter(None, xs)] on a list of [Optional[tuple]]: [None] is falsy and a
    pair is a non-empty tuple, hence truthy. *)
Fixpoint filter_None {A : Type} (xs : list (option A)) : list A :=
  match xs with
  | [] => []
  | None :: xs' => filter_None xs'
  | Some x :: xs' => x :: filter_None xs'
  end.

(** The calls [get_mods] makes for one of the two dictionaries: the list
    comprehension over [.items()], with the [ModSource] it passes. *)
Definition resolve_items
    (get_mod : string -> string -> gset Side -> ModSource -> option (ModInfo * GTNHVersion))
    (valid_sides : gset Side) (source : ModSource)
    (items : list (string * string)) : list (option (ModInfo * GTNHVersion)) :=
  map (fun '(name, version) => get_mod name version valid_sides source) items.

Definition get_mods (self : GenericAssembler) (side : Side)
    : list (ModInfo * GTNHVersion) :=
  let get_mod := get_mod_and_version (assets (modpack_manager self)) in
  let valid_sides : gset Side := {[ side; BOTH ]} in
  let github_mods_ :=
    resolve_items get_mod valid_sides github (github_mods (release self)) in
  let external_mods_ :=
    resolve_items get_mod valid_sides github (external_mods (release self)) in
  filter_None (github_mods_ ++ external_mods_).

(** [assert version] fails exactly on [None]. *)
Definition get_config (self : GenericAssembler)
    : outcome (GTNHConfig * GTNHVersion) :=
  let config_ := config (assets (modpack_manager self)) in
  match get_version config_ (release_config (release self)) with
  | None => Raise AssertionError
  | Some version => Return (config_, version)
  end.

(** ** Methods that use the machine *)

(** [get_asset_version_cache_location] of [gtnh.assembler.downloader]: where
    the cache keeps the file of an asset version. *)
Variable get_asset_version_cache_location : GTNHConfig -> GTNHVersion -> Path.

(** [__init__]: works on a new object, binds its attributes and sets its
    [delta_progress] to 0.0; [exclusions] has the two keys the dictionary
    display gives it. *)
Definition __init__ (gtnh_modpack : GTNHModpackManager) (release_ : GTNHRelease)
    (task_progress_callback_ global_progress_callback_ : option Callback)
    : M GenericAssembler :=
  fun m =>
    let obj := fresh (objects m) in
    (Return {| object_id := obj;
               modpack_manager := gtnh_modpack;
               release := release_;
               global_progress_callback := global_progress_callback_;
               task_progress_callback := task_progress_callback_;
               exclusions :=
                 <[SERVER := server_exclusions (mod_pack gtnh_modpack)]>
                   (<[CLIENT := client_exclusions (mod_pack gtnh_modpack)]> ∅) |},
     set_delta_progress obj 0%Q (add_object obj m), []).

Definition get_progress (self : GenericAssembler) : M Q :=
  fun m => (Return (delta_progress m (object_id self)), m, []).

Definition set_progress (self : GenericAssembler) (delta_progress_ : Q) : M unit :=
  fun m => (Return tt, set_delta_progress (object_id self) delta_progress_ m, []).

(** [[item for item in names if item not in self.exclusions[side]]]: the
    condition, and with it the subscript [self.exclusions[side]], is
    evaluated once per item, so a missing key raises at the first item and
    not at all when there is none. *)
Fixpoint not_excluded (exclusions_ : gmap Side (list string)) (side : Side)
    (names : list string) : outcome (list string) :=
  match names with
  | [] => Return []
  | item :: names' =>
      match exclusions_ !! side with
      | None => Raise (KeyError side)
      | Some excluded =>
          match not_excluded exclusions_ side names' with
          | Raise e => Raise e
          | Return kept =>
              if bool_decide (item ∈ excluded) then Return kept
              else Return (item :: kept)
          end
      end
  end.

Definition get_amount_of_files_in_config (self : GenericAssembler) (side : Side)
    : M nat :=
  cv <- lift (get_config self) ;;
  let '(modpack_config, config_version) := cv in
  let config_file := get_asset_version_cache_location modpack_config config_version in
  with_ZipFile config_file mode_r ZIP_DEFLATED (fun config_zip =>
    names <- ZipFile_namelist config_zip ;;
    kept <- lift (not_excluded (exclusions self) side names) ;;
    ret (length kept)).

(** ** Methods a subclass overrides *)

(** [add_mods], [add_config], [update_progress] and [get_archive_path] have
    the body [pass] in [GenericAssembler]; the assemblers of the repository
    subclass it and override them.  [assemble] reaches them through [self],
    so it is modelled over any table of these four methods.  A [ZipFile] is
    passed as its handle. *)
Record Overrides := {
  add_mods :
    GenericAssembler -> Side -> list (ModInfo * GTNHVersion) -> nat -> bool -> M unit;
  add_config :
    GenericAssembler -> Side -> GTNHConfig * GTNHVersion -> nat -> bool -> M unit;
  update_progress : GenericAssembler -> Side -> Path -> bool -> M unit;
  get_archive_path : GenericAssembler -> Side -> option Path
}.

(** The methods as [GenericAssembler] itself has them: [pass] does nothing
    and the call returns [None]. *)
Definition GenericAssembler_methods : Overrides := {|
  add_mods := fun _ _ _ _ _ => ret tt;
  add_config := fun _ _ _ _ _ => ret tt;
  update_progress := fun _ _ _ _ => ret tt;
  get_archive_path := fun _ _ => None
|}.

(** [colorama.Fore.YELLOW], [colorama.Fore.RESET] *)
Definition Fore_YELLOW : string := String "027"%char "[33m".
Definition Fore_RESET : string := String "027"%char "[39m".

(** Modelled from the spec: how the f-string renders a [Side], by the name
    of the member. *)
Definition Side_format (side : Side) : string :=
  match side with
  | CLIENT => "CLIENT"
  | SERVER => "SERVER"
  | BOTH => "BOTH"
  end.

Definition msg_previous_archive_deleted (archive_name : Path) : string :=
  "Previous archive " +:+ Fore_YELLOW +:+ "'" +:+ archive_name +:+ "'"
    +:+ Fore_RESET +:+ " deleted".

Definition msg_constructing (side : Side) (archive_name : Path) : string :=
  "Constructing " +:+ Fore_YELLOW +:+ Side_format side +:+ Fore_RESET
    +:+ " archive at " +:+ Fore_YELLOW +:+ "'" +:+ archive_name +:+ "'"
    +:+ Fore_RESET.

(** The block of [with ZipFile(...) as archive] in [assemble]. *)
Definition assemble_body (cls : Overrides) (self : GenericAssembler)
    (side : Side) (verbose : bool) (archive : nat) : M unit :=
  log_info "Adding mods to the archive" ;;
  add_mods cls self side (get_mods self side) archive verbose ;;
  log_info "Adding config to the archive" ;;
  cv <- lift (get_config self) ;;
  add_config cls self side cv archive verbose ;;
  log_info "Archive created successfully!".

(** [assemble].  [get_archive_path] is called twice with the same arguments
    and has no effect, so both calls give [archive_name]; when it gives
    [None], [os.path.exists(None)] raises [TypeError]. *)
Definition assemble (cls : Overrides) (self : GenericAssembler)
    (side : Side) (verbose : bool) : M unit :=
  if bool_decide (side ∉ ({[ CLIENT; SERVER ]} : gset Side)) then
    raise (Exception "Can only assemble release for CLIENT or SERVER, not BOTH")
  else
    match get_archive_path cls self side with
    | None => raise TypeError
    | Some archive_name =>
        exists_ <- os_path_exists archive_name ;;
        (if exists_ : bool then
           os_remove archive_name ;;
           log_warn (msg_previous_archive_deleted archive_name)
         else ret tt) ;;
        log_info (msg_constructing side archive_name) ;;
        with_ZipFile archive_name mode_w ZipFile_default_compression
          (assemble_body cls self side verbose)
    end.

(** ** The overriding methods, from their contract *)

(** [ZipFile.writestr(name, data)] on an archive opened for writing: the
    member is appended to the directory of the object and to the file. *)
Definition ZipFile_writestr (h : nat) (name data : string) : M unit :=
  fun m =>
    match opened m !! h with
    | None =>
        (Raise (ValueError "Attempt to write to ZIP archive that was already closed"), m, [])
    | Some zf =>
        match zf_mode zf with
        | mode_r => (Raise (ValueError "write() requires mode 'w', 'x', or 'a'"), m, [])
        | mode_w =>
            let zf' := {| zf_filename := zf_filename zf; zf_mode := mode_w;
                          zf_compression := zf_compression zf;
                          zf_filelist := zf_filelist zf ++ [(name, data)] |} in
            let fs' :=
              match fs m !! zf_filename zf with
              | Some (ZipArchive members) =>
                  <[zf_filename zf := ZipArchive (members ++ [(name, data)])]> (fs m)
              | _ => fs m
              end in
            (Return tt, set_opened (<[h := zf']> (opened m)) (set_fs fs' m),
             [ZipWrite h name])
        end
    end.

(** The members an open [ZipFile] lists, with their data. *)
Definition ZipFile_members (h : nat) : M (list member) :=
  fun m =>
    match opened m !! h with
    | Some zf => (Return (zf_filelist zf), m, [])
    | None => (Raise (ValueError "Attempt to use ZIP archive that was already closed"), m, [])
    end.

(** The increment of [delta_progress] per file, fixed for one assembly. *)
Variable per_file_increment : Q.

Definition progress_events (cb : option Callback) (value : Q) (label : string)
    : list event :=
  match cb with
  | Some c => [Progress c value label]
  | None => []
  end.

(** Modelled from the spec: [update_progress] as an assembler of the
    repository overrides it (section 4.1, updateProgress): it adds the
    per-file increment to [delta_progress] and calls the task-level and the
    global-level callback, when configured, with the new progress and the
    file path as label. *)
Definition spec_update_progress (self : GenericAssembler) (side : Side)
    (source_file : Path) (verbose : bool) : M unit :=
  fun m =>
    let progress := Qplus (delta_progress m (object_id self)) per_file_increment in
    (Return tt, set_delta_progress (object_id self) progress m,
     progress_events (task_progress_callback self) progress source_file
       ++ progress_events (global_progress_callback self) progress source_file).

(** The copying loop of [spec_add_config], over the members of the config
    archive in their order. *)
Fixpoint copy_members (self : GenericAssembler) (side : Side) (archive : nat)
    (verbose : bool) (members : list member) : M unit :=
  match members with
  | [] => ret tt
  | (name, data) :: members' =>
      excluded <- lift (match exclusions self !! side with
                        | Some l => Return l
                        | None => Raise (KeyError side)
                        end) ;;
      if bool_decide (name ∈ excluded) then
        copy_members self side archive verbose members'
      else
        ZipFile_writestr archive name data ;;
        spec_update_progress self side name verbose ;;
        copy_members self side archive verbose members'
  end.

(** Modelled from the spec: [add_config] as an assembler of the repository
    overrides it (section 4.1, addConfig): it opens the cached config
    archive and copies every member that is not in the exclusion list of the
    side into the output archive, name and data unchanged, calling
    [update_progress] after each member copied. *)
Definition spec_add_config (self : GenericAssembler) (side : Side)
    (config_and_version : GTNHConfig * GTNHVersion) (archive : nat)
    (verbose : bool) : M unit :=
  let '(modpack_config, config_version) := config_and_version in
  let config_file := get_asset_version_cache_location modpack_config config_version in
  with_ZipFile config_file mode_r ZipFile_default_compression (fun config_zip =>
    members <- ZipFile_members config_zip ;;
    copy_members self side archive verbose members).

End Assembler.

Arguments get_version {GTNHVersion} _ _.
Arguments config {ModInfo GTNHVersion} _.
Arguments get_mod_and_version {ModInfo GTNHVersion} _ _ _ _ _.
Arguments assets {ModInfo GTNHVersion} _.
Arguments mod_pack {ModInfo GTNHVersion} _.
Arguments object_id {ModInfo GTNHVersion} _.
Arguments modpack_manager {ModInfo GTNHVersion} _.
Arguments get_progress {ModInfo GTNHVersion} _ _.
Arguments set_progress {ModInfo GTNHVersion} _ _ _.
Arguments release {ModInfo GTNHVersion} _.
Arguments global_progress_callback {ModInfo GTNHVersion} _.
Arguments task_progress_callback {ModInfo GTNHVersion} _.
Arguments exclusions {ModInfo GTNHVersion} _.
Arguments resolve_items {ModInfo GTNHVersion} _ _ _ _.
Arguments get_mods {ModInfo GTNHVersion} _ _.
Arguments get_config {ModInfo GTNHVersion} _.
Arguments __init__ {ModInfo GTNHVersion} _ _ _ _.
Arguments get_amount_of_files_in_config {ModInfo GTNHVersion} _ _ _.
Arguments add_mods {ModInfo GTNHVersion} _ _ _ _ _ _.
Arguments add_config {ModInfo GTNHVersion} _ _ _ _ _ _.
Arguments update_progress {ModInfo GTNHVersion} _ _ _ _ _.
Arguments get_archive_path {ModInfo GTNHVersion} _ _ _.
Arguments GenericAssembler_methods {ModInfo GTNHVersion}.
Arguments assemble_body {ModInfo GTNHVersion} _ _ _ _ _.
Arguments assemble {ModInfo GTNHVersion} _ _ _ _.
Arguments spec_update_progress {ModInfo GTNHVersion} _ _ _ _ _.
Arguments copy_members {ModInfo GTNHVersion} _ _ _ _ _ _.
Arguments spec_add_config {ModInfo GTNHVersion} _ _ _ _ _ _ _.

(** A subclass that overrides [get_archive_path] alone and inherits the
    bodies [pass] of [add_mods], [add_config] and [update_progress]. *)
Definition inherit_all_but_archive_path {ModInfo GTNHVersion : Type}
    (archive_path : GenericAssembler ModInfo GTNHVersion -> Side -> option Path)
    : Overrides ModInfo GTNHVersion :=
  {| add_mods := add_mods GenericAssembler_methods;
     add_config := add_config GenericAssembler_methods;
     update_progress := update_progress GenericAssembler_methods;
     get_archive_path := archive_path |}.

(** ** A release to run the methods on *)

(** The release of the example of the spec: the mod Forge 1.0 from the primary
    source, here with the mod JourneyMap from the external source, config
    version v7, and configs/debug.cfg excluded on the server.  A mod is
    known by its name and a version by its tag. *)
Module Example.

Definition forge : string * string := ("Forge", "1.0").
Definition journeymap : string * string := ("JourneyMap", "5.1.4p2").

Definition the_config : GTNHConfig string :=
  {| get_version := fun tag => if bool_decide (tag = "v7") then Some "v7" else None |}.

(** The asset store knows Forge as a mod of the primary source and JourneyMap
    as a mod of the external source, both for every side. *)
Definition the_assets : AvailableAssets string string :=
  {| config := the_config;
     get_mod_and_version := fun name version valid_sides source =>
       if bool_decide (BOTH ∈ valid_sides) then
         match source with
         | github => if bool_decide ((name, version) = forge) then Some forge else None
         | other =>
             if bool_decide ((name, version) = journeymap) then Some journeymap else None
         end
       else None |}.

Definition the_manager : GTNHModpackManager string string :=
  {| assets := the_assets;
     mod_pack := {| client_exclusions := [];
                    server_exclusions := ["configs/debug.cfg"] |} |}.

Definition the_release : GTNHRelease :=
  {| release_config := "v7";
     github_mods := [("Forge", "1.0"); ("Missing", "0.1")];
     external_mods := [("JourneyMap", "5.1.4p2")] |}.

(** A release that names a config version the modpack does not have. *)
Definition a_corrupt_release : GTNHRelease :=
  {| release_config := "v8"; github_mods := []; external_mods := [] |}.

Definition cache_location (c : GTNHConfig string) (version : string) : Path :=
  "cache/config/" +:+ version +:+ ".zip".

Definition config_members : list member :=
  [("configs/main.cfg", "a=1"); ("configs/debug.cfg", "debug=1");
   ("scripts/init.zs", "print")].

(** The disk before an assembly: the cached config archive, and an archive of
    an earlier run at the output path of the server, in their directories. *)
Definition disk : gmap Path node :=
  <["cache/config/v7.zip" := ZipArchive config_members]>
    (<["releases/server.zip" := ZipArchive [("old.jar", "old")]]>
       (<["cache/config" := Directory]>
          (<["cache" := Directory]> (<["releases" := Directory]> ∅)))).

Definition machine0 : Machine :=
  {| delta_progress := fun _ => 0%Q; objects := ∅; fs := disk; opened := ∅ |}.

(** The same disk with an empty config archive. *)
Definition machine_empty_config : Machine :=
  {| delta_progress := fun _ => 0%Q; objects := ∅;
     fs := <["cache/config/v7.zip" := ZipArchive []]> ∅;
     opened := ∅ |}.

Definition new_assembler (release_ : GTNHRelease)
    : GenericAssembler string string :=
  {| object_id := 0;
     modpack_manager := the_manager;
     release := release_;
     global_progress_callback := None;
     task_progress_callback := Some 1;
     exclusions := <[SERVER := ["configs/debug.cfg"]]> (<[CLIENT := []]> ∅) |}.

Definition the_assembler := new_assembler the_release.

(** An asset store that agrees with [the_assets] on the primary source and
    knows no mod of the external source. *)
Definition assets_without_external : AvailableAssets string string :=
  {| config := the_config;
     get_mod_and_version := fun name version valid_sides source =>
       match source with
       | github => get_mod_and_version the_assets name version valid_sides github
       | other => None
       end |}.

Definition assembler_without_external : GenericAssembler string string :=
  {| object_id := 0;
     modpack_manager :=
       {| assets := assets_without_external;
          mod_pack := {| client_exclusions := [];
                         server_exclusions := ["configs/debug.cfg"] |} |};
     release := the_release;
     global_progress_callback := None;
     task_progress_callback := Some 1;
     exclusions := <[SERVER := ["configs/debug.cfg"]]> (<[CLIENT := []]> ∅) |}.

(** The assembler with the exclusions of the server listed twice and in
    another order. *)
Definition assembler_exclusions_repeated : GenericAssembler string string :=
  {| object_id := 0;
     modpack_manager := the_manager;
     release := the_release;
     global_progress_callback := None;
     task_progress_callback := Some 1;
     exclusions :=
       <[SERVER := ["configs/debug.cfg"; "configs/debug.cfg"]]> (<[CLIENT := []]> ∅) |}.


Definition machine_directory_at_output : Machine :=
  {| delta_progress := fun _ => 0%Q; objects := ∅;
     fs := <["releases/client.zip" := Directory]> disk;
     opened := ∅ |}.

Definition archive_path (self : GenericAssembler string string) (side : Side)
    : option Path :=
  Some ("releases/" +:+ match side with
                        | CLIENT => "client"
                        | SERVER => "server"
                        | BOTH => "both"
                        end +:+ ".zip").

(** A subclass whose [add_mods] fails on a full disk. *)
Definition failing_methods : Overrides string string :=
  {| add_mods := fun _ _ _ _ _ => raise (ValueError "No space left on device");
     add_config := fun _ _ _ _ _ => ret tt;
     update_progress := fun _ _ _ _ => ret tt;
     get_archive_path := archive_path |}.

(** A subclass whose [add_config] fails, after [add_mods] wrote a member. *)
Definition failing_config_methods : Overrides string string :=
  {| add_mods := fun _ _ _ archive _ => ZipFile_writestr archive "mods/forge.jar" "jar";
     add_config := fun _ _ _ _ _ => raise (ValueError "No space left on device");
     update_progress := fun _ _ _ _ => ret tt;
     get_archive_path := archive_path |}.

(** A subclass that follows the contract of [add_config] and adds no mod. *)
Definition zip_methods : Overrides string string :=
  {| add_mods := fun _ _ _ _ _ => ret tt;
     add_config := spec_add_config cache_location (1 # 4)%Q;
     update_progress := spec_update_progress (1 # 4)%Q;
     get_archive_path := archive_path |}.

End Example.

(** ** Reference definitions, in the words of the spec *)

(** The entries of one mod map that resolve, in the iteration order of the
    map (spec 4.1, resolveMods: entries that fail to resolve are dropped). *)
Fixpoint resolved_in_order {ModInfo GTNHVersion : Type}
    (get_mod : string -> string -> gset Side -> ModSource -> option (ModInfo * GTNHVersion))
    (valid_sides : gset Side) (source : ModSource)
    (items : list (string * string)) : list (ModInfo * GTNHVersion) :=
  match items with
  | [] => []
  | (name, version) :: items' =>
      match get_mod name version valid_sides source with
      | Some mod_and_version =>
          mod_and_version :: resolved_in_order get_mod valid_sides source items'
      | None => resolved_in_order get_mod valid_sides source items'
      end
  end.

(** The number of members whose path is not in an exclusion list (spec 4.1,
    countConfigEntries). *)
Definition count_not_excluded (excluded : list string) (members : list member)
    : nat :=
  length (filter (λ mb : member, mb.1 ∉ excluded) members).

(** The number of members a trace writes into the archive of handle [h]. *)
Fixpoint writes_to (h : nat) (t : list event) : nat :=
  match t with
  | [] => 0
  | ZipWrite h' _ :: t' =>
      if bool_decide (h' = h) then S (writes_to h t') else writes_to h t'
  | _ :: t' => writes_to h t'
  end.

(** The [ZipFile] object [assemble] builds at [archive_name]. *)
Definition output_ZipFile (archive_name : Path) : ZipFile :=
  {| zf_filename := archive_name; zf_mode := mode_w;
     zf_compression := ZIP_STORED; zf_filelist := [] |}.

(** The machine when the block of the [with] statement starts: the path
    holds an empty archive and the output object is open. *)
Definition machine_at_open (archive_name : Path) (m : Machine) : Machine :=
  set_opened (<[fresh (dom (opened m)) := output_ZipFile archive_name]> (opened m))
    (set_fs (<[archive_name := ZipArchive []]> (fs m)) m).

(** What [assemble] logs and removes before it opens the archive. *)
Definition events_before_open (side : Side) (archive_name : Path) (m : Machine)
    : list event :=
  (if bool_decide (is_Some (fs m !! archive_name))
   then [OsRemove archive_name;
         Log WARN (msg_previous_archive_deleted archive_name)]
   else [])
  ++ [Log INFO (msg_constructing side archive_name)].

(** * Properties *)

(** ** Resolution of the mods *)

Section ResolveMods.

Context {ModInfo GTNHVersion : Type}.
Implicit Types (self : GenericAssembler ModInfo GTNHVersion) (side : Side).

Lemma filter_None_app {A} (xs ys : list (option A)) :
  filter_None (xs ++ ys) = filter_None xs ++ filter_None ys.
Proof.
  induction xs as [| [x |] xs IH]; simpl; [done | by rewrite IH | done].
Qed.

Lemma elem_of_filter_None {A} (xs : list (option A)) (x : A) :
  x ∈ filter_None xs ↔ Some x ∈ xs.
Proof.
  induction xs as [| [y |] xs IH]; simpl.
  - split; intros H; inversion H.
  - rewrite !elem_of_cons, IH. split; intros [H | H]; auto; left; congruence.
  - rewrite elem_of_cons, IH. split; [by right | intros [H | H]; [discriminate | done]].
Qed.

Lemma filter_None_resolve_items get_mod valid_sides source items :
  filter_None (resolve_items (ModInfo := ModInfo) (GTNHVersion := GTNHVersion)
                 get_mod valid_sides source items)
  = resolved_in_order get_mod valid_sides source items.
Proof.
  induction items as [| [name version] items IH]; simpl; [done |].
  destruct (get_mod name version valid_sides source); by rewrite <- IH.
Qed.

Lemma elem_of_resolve_items get_mod valid_sides source items
    (r : option (ModInfo * GTNHVersion)) :
  r ∈ resolve_items get_mod valid_sides source items
  ↔ ∃ name version,
      (name, version) ∈ items ∧ get_mod name version valid_sides source = r.
Proof.
  unfold resolve_items. rewrite list_elem_of_fmap. split.
  - intros [[name version] [-> Hin]]. eauto.
  - intros (name & version & Hin & <-). by exists (name, version).
Qed.

(** X3: the lookups under [ModSource.other] play no part in [get_mods]: for
    one release, two asset stores that agree on [ModSource.github] give the
    same mods. *)
Lemma get_mods_reads_github_only self self' side :
  release self = release self' →
  (∀ name version valid_sides,
      get_mod_and_version (assets (modpack_manager self)) name version valid_sides github
      = get_mod_and_version (assets (modpack_manager self')) name version valid_sides github) →
  get_mods self side = get_mods self' side.
Proof.
  intros Hrel Hgithub. unfold get_mods. rewrite <- Hrel.
  rewrite !filter_None_app, !filter_None_resolve_items.
  assert (Heq : ∀ items,
    resolved_in_order (get_mod_and_version (assets (modpack_manager self)))
      {[side; BOTH]} github items
    = resolved_in_order (get_mod_and_version (assets (modpack_manager self')))
      {[side; BOTH]} github items).
  { induction items as [| [name version] items IH]; simpl; [done |].
    by rewrite Hgithub, IH. }
  by rewrite !Heq.
Qed.

(** C1 (the code departs from the claim): the asset store resolves
    JourneyMap 5.1.4p2 for the valid sides {CLIENT, BOTH} under the external
    source, the release lists it in its external-source mod map, and
    [get_mods] still returns Forge alone: it looks the external entries up
    under [ModSource.github], where the store answers [None]. *)
Theorem get_mods_external_entry_looked_up_as_github :
  ("JourneyMap", "5.1.4p2") ∈ external_mods (release Example.the_assembler)
  ∧ get_mod_and_version Example.the_assets "JourneyMap" "5.1.4p2"
      {[CLIENT; BOTH]} other = Some Example.journeymap
  ∧ get_mod_and_version Example.the_assets "JourneyMap" "5.1.4p2"
      {[CLIENT; BOTH]} github = None
  ∧ get_mods Example.the_assembler CLIENT = [Example.forge].
Proof.
  split; [| split; [| split]].
  - simpl. apply list_elem_of_here.
  - reflexivity.
  - reflexivity.
  - reflexivity.
Qed.

(** C2: [get_mods] returns the entries of the primary-source map that
    resolve, followed by the entries of the external-source map that resolve,
    each group in the iteration order of its map; an entry is in the result
    exactly when one of the lookups [get_mods] makes returned it, so an entry
    that does not resolve is left out and nothing is raised ([get_mods] is a
    total function to lists).  The result is a function of the two maps in
    their iteration order, so a repeated call gives the same order. *)
Theorem get_mods_resolved_entries_in_order self side :
  let get_mod := get_mod_and_version (assets (modpack_manager self)) in
  let valid_sides : gset Side := {[ side; BOTH ]} in
  get_mods self side
  = resolved_in_order get_mod valid_sides github (github_mods (release self))
    ++ resolved_in_order get_mod valid_sides github (external_mods (release self))
  ∧ ∀ mod_and_version,
      mod_and_version ∈ get_mods self side
      ↔ ∃ name version,
          ((name, version) ∈ github_mods (release self)
           ∨ (name, version) ∈ external_mods (release self))
          ∧ get_mod name version valid_sides github = Some mod_and_version.
Proof.
  intros get_mod valid_sides. split.
  - unfold get_mods. by rewrite filter_None_app, !filter_None_resolve_items.
  - intros mv. unfold get_mods.
    rewrite elem_of_filter_None, elem_of_app, !elem_of_resolve_items.
    fold get_mod valid_sides. split.
    + intros [(n & v & Hin & Hget) | (n & v & Hin & Hget)]; exists n, v; auto.
    + intros (n & v & [Hin | Hin] & Hget); [left | right]; eauto.
Qed.

(** C3: [get_config] returns the config object of the modpack paired with
    the version the release names when [get_version] finds it, and raises
    [AssertionError] when [get_version] returns [None]. *)
Theorem get_config_returns_or_asserts self :
  let config_ := config (assets (modpack_manager self)) in
  (∀ version,
      get_version config_ (release_config (release self)) = Some version →
      get_config self = Return (config_, version))
  ∧ (get_version config_ (release_config (release self)) = None →
     get_config self = Raise AssertionError).
Proof.
  intros config_. unfold get_config. fold config_.
  split; [intros version H | intros H]; by rewrite H.
Qed.

End ResolveMods.

Lemma get_mods_resolved_entries_in_order_witness :
  get_mods Example.the_assembler SERVER = [Example.forge] ++ []
  ∧ ∀ mod_and_version,
      mod_and_version ∈ get_mods Example.the_assembler SERVER
      ↔ ∃ name version,
          ((name, version) ∈ github_mods (release Example.the_assembler)
           ∨ (name, version) ∈ external_mods (release Example.the_assembler))
          ∧ get_mod_and_version Example.the_assets name version
              {[ SERVER; BOTH ]} github = Some mod_and_version.
Proof.
  exact (get_mods_resolved_entries_in_order Example.the_assembler SERVER).
Defined.

Lemma get_config_returns_or_asserts_witness :
  get_config Example.the_assembler = Return (Example.the_config, "v7")
  ∧ get_config (Example.new_assembler Example.a_corrupt_release)
    = Raise AssertionError.
Proof.
  split.
  - apply (proj1 (get_config_returns_or_asserts Example.the_assembler)).
    reflexivity.
  - apply (proj2 (get_config_returns_or_asserts
                    (Example.new_assembler Example.a_corrupt_release))).
    reflexivity.
Defined.

(** ** The machine and the [with] statement *)

Lemma fresh_handle_closed (m : Machine) : opened m !! fresh (dom (opened m)) = None.
Proof. apply not_elem_of_dom, is_fresh. Qed.

(** Opening a handle and closing it again leaves the open objects as they
    were. *)
Lemma open_close_opened (m : Machine) (zf : ZipFile) :
  set_opened (delete (fresh (dom (opened m)))
                (<[fresh (dom (opened m)) := zf]> (opened m)))
    (set_opened (<[fresh (dom (opened m)) := zf]> (opened m)) m)
  = m.
Proof.
  destruct m as [d ob f o]; unfold set_opened; simpl. f_equal.
  apply delete_insert_id, (fresh_handle_closed {| delta_progress := d; objects := ob; fs := f; opened := o |}).
Qed.

(** [with ZipFile(file, "r", ...)] over an archive that is on the disk. *)
Lemma with_ZipFile_read {A} file compression (body : nat → M A) m members :
  fs m !! file = Some (ZipArchive members) →
  let h := fresh (dom (opened m)) in
  let zf := {| zf_filename := file; zf_mode := mode_r;
               zf_compression := compression; zf_filelist := members |} in
  let m1 := set_opened (<[h := zf]> (opened m)) m in
  with_ZipFile file mode_r compression body m
  = (let '(r, m2, t2) := body h m1 in
     (r, set_opened (delete h (opened m2)) m2,
      ZipOpen h file mode_r compression :: t2 ++ [ZipClose h])).
Proof.
  intros Hfile h zf m1. unfold with_ZipFile, ZipFile_open. rewrite Hfile.
  fold h zf m1. by destruct (body h m1) as [[r m2] t2].
Qed.

(** Removing the file at a path does not take the directory of the path
    away. *)
Lemma open_for_writing_after_remove (f : gmap Path node) (file : Path) :
  f !! file ≠ Some Directory →
  parent_error f file = None →
  open_for_writing_error (delete file f) file = None.
Proof.
  intros Hnode Hparent. unfold open_for_writing_error.
  rewrite lookup_delete_eq. unfold parent_error in *.
  destruct (all_slashes (posixpath_dirname file)); [done |].
  destruct (decide (posixpath_dirname file = file)) as [Heq | Hne].
  - rewrite Heq in Hparent.
    destruct (f !! file) as [[ms | c |] |]; done.
  - by rewrite lookup_delete_ne.
Qed.

Lemma open_for_writing_absent (f : gmap Path node) (file : Path) :
  f !! file = None →
  parent_error f file = None →
  open_for_writing_error f file = None.
Proof. intros Hnone Hparent. unfold open_for_writing_error. by rewrite Hnone. Qed.

(** [with ZipFile(file, "w", ...)] at a path that can be opened for
    writing. *)
Lemma with_ZipFile_write {A} file compression (body : nat → M A) m :
  open_for_writing_error (fs m) file = None →
  let h := fresh (dom (opened m)) in
  let zf := {| zf_filename := file; zf_mode := mode_w;
               zf_compression := compression; zf_filelist := [] |} in
  let m1 := set_opened (<[h := zf]> (opened m))
              (set_fs (<[file := ZipArchive []]> (fs m)) m) in
  with_ZipFile file mode_w compression body m
  = (let '(r, m2, t2) := body h m1 in
     (r, set_opened (delete h (opened m2)) m2,
      ZipOpen h file mode_w compression :: t2 ++ [ZipClose h])).
Proof.
  intros Hfile h zf m1. unfold with_ZipFile, ZipFile_open. rewrite Hfile.
  fold h zf m1. by destruct (body h m1) as [[r m2] t2].
Qed.

(** ** Counting the files of the config *)

Section CountConfig.

Context {ModInfo GTNHVersion : Type}.
Variable get_asset_version_cache_location : GTNHConfig GTNHVersion → GTNHVersion → Path.
Implicit Types (self : GenericAssembler ModInfo GTNHVersion) (side : Side).

Lemma not_excluded_key exclusions_ side excluded names :
  exclusions_ !! side = Some excluded →
  not_excluded exclusions_ side names
  = Return (filter (λ name, name ∉ excluded) names).
Proof.
  intros Hkey. induction names as [| item names IH]; simpl; [done |].
  rewrite Hkey, IH. rewrite filter_cons.
  destruct (decide (item ∈ excluded)) as [Hin | Hin].
  - rewrite bool_decide_eq_true_2 by done. by rewrite decide_False by auto.
  - rewrite bool_decide_eq_false_2 by done. by rewrite decide_True by done.
Qed.

Lemma not_excluded_no_key exclusions_ side item names :
  exclusions_ !! side = None →
  not_excluded exclusions_ side (item :: names) = Raise (KeyError side).
Proof. intros Hkey. simpl. by rewrite Hkey. Qed.

Lemma length_filter_names (excluded : list string) (members : list member) :
  length (filter (λ name, name ∉ excluded) (map fst members))
  = count_not_excluded excluded members.
Proof.
  unfold count_not_excluded.
  induction members as [| [name data] members IH]; simpl; [done |].
  rewrite !filter_cons; simpl.
  destruct (decide (name ∉ excluded)); simpl; by rewrite IH.
Qed.

(** The exclusions of an assembler [__init__] has built. *)
Lemma init_exclusions gtnh_modpack release_ tcb gcb m0 self :
  (__init__ gtnh_modpack release_ tcb gcb m0).1.1 = Return self →
  exclusions self !! CLIENT = Some (client_exclusions (mod_pack gtnh_modpack))
  ∧ exclusions self !! SERVER = Some (server_exclusions (mod_pack gtnh_modpack))
  ∧ exclusions self !! BOTH = None
  ∧ modpack_manager self = gtnh_modpack
  ∧ release self = release_.
Proof.
  unfold __init__; simpl. intros [= <-]; simpl.
  repeat split.
Qed.

(** What [get_amount_of_files_in_config] does once the config resolves and
    its archive is in the cache. *)
Lemma get_amount_of_files_in_config_run self side m config_ version members :
  get_config self = Return (config_, version) →
  fs m !! get_asset_version_cache_location config_ version = Some (ZipArchive members) →
  get_amount_of_files_in_config get_asset_version_cache_location self side m
  = (match not_excluded (exclusions self) side (map fst members) with
     | Return kept => Return (length kept)
     | Raise e => Raise e
     end,
     m,
     [ZipOpen (fresh (dom (opened m)))
        (get_asset_version_cache_location config_ version) mode_r ZIP_DEFLATED;
      ZipClose (fresh (dom (opened m)))]).
Proof.
  intros Hconfig Hfile. unfold get_amount_of_files_in_config.
  unfold bind at 1. rewrite Hconfig. simpl.
  erewrite with_ZipFile_read by done.
  unfold bind, ZipFile_namelist; simpl. rewrite lookup_insert_eq; simpl.
  destruct (not_excluded _ _ _) as [kept | e]; simpl;
    by rewrite open_close_opened.
Qed.

End CountConfig.

Section CountConfigClaims.

Context {ModInfo GTNHVersion : Type}.
Variable get_asset_version_cache_location : GTNHConfig GTNHVersion → GTNHVersion → Path.
Implicit Types (self : GenericAssembler ModInfo GTNHVersion) (side : Side).

(** C4: for the side CLIENT and for the side SERVER, on an assembler built
    by [__init__], once the config resolves and its archive is in the cache,
    [get_amount_of_files_in_config] returns the number of members of that
    archive whose path is not in the exclusion list of the side; it leaves
    the machine as it found it (the disk, [delta_progress], the open
    objects), and all it does to the outside is to open the config archive
    for reading and to close it. *)
Theorem get_amount_of_files_in_config_counts
    gtnh_modpack release_ tcb gcb m0 self side excluded m config_ version members :
  (__init__ gtnh_modpack release_ tcb gcb m0).1.1 = Return self →
  (side = CLIENT ∧ excluded = client_exclusions (mod_pack gtnh_modpack)
   ∨ side = SERVER ∧ excluded = server_exclusions (mod_pack gtnh_modpack)) →
  get_config self = Return (config_, version) →
  fs m !! get_asset_version_cache_location config_ version = Some (ZipArchive members) →
  get_amount_of_files_in_config get_asset_version_cache_location self side m
  = (Return (count_not_excluded excluded members), m,
     [ZipOpen (fresh (dom (opened m)))
        (get_asset_version_cache_location config_ version) mode_r ZIP_DEFLATED;
      ZipClose (fresh (dom (opened m)))]).
Proof.
  intros Hinit Hside Hconfig Hfile.
  destruct (init_exclusions _ _ _ _ _ _ Hinit) as (Hclient & Hserver & _).
  rewrite (get_amount_of_files_in_config_run _ _ _ _ _ _ _ Hconfig Hfile).
  assert (Hkey : exclusions self !! side = Some excluded).
  { destruct Hside as [[-> ->] | [-> ->]]; done. }
  by rewrite (not_excluded_key _ _ _ _ Hkey), length_filter_names.
Qed.

(** C10, as amended: an assembler built by [__init__] has exclusions for the
    keys CLIENT and SERVER only, and once the config resolves and its archive
    is in the cache with at least one member, counting for the side BOTH
    raises [KeyError]; the config archive is closed again and the machine is
    as before. *)
Theorem get_amount_of_files_in_config_BOTH_raises
    gtnh_modpack release_ tcb gcb m0 self m config_ version members :
  (__init__ gtnh_modpack release_ tcb gcb m0).1.1 = Return self →
  get_config self = Return (config_, version) →
  fs m !! get_asset_version_cache_location config_ version = Some (ZipArchive members) →
  members ≠ [] →
  dom (exclusions self) = ({[ CLIENT; SERVER ]} : gset Side)
  ∧ get_amount_of_files_in_config get_asset_version_cache_location self BOTH m
    = (Raise (KeyError BOTH), m,
       [ZipOpen (fresh (dom (opened m)))
          (get_asset_version_cache_location config_ version) mode_r ZIP_DEFLATED;
        ZipClose (fresh (dom (opened m)))]).
Proof.
  intros Hinit Hconfig Hfile Hmembers.
  destruct (init_exclusions _ _ _ _ _ _ Hinit) as (_ & _ & Hboth & _).
  split.
  - unfold __init__ in Hinit; simpl in Hinit. injection Hinit as <-; simpl.
    rewrite !dom_insert_L, dom_empty_L. set_solver.
  - rewrite (get_amount_of_files_in_config_run _ _ _ _ _ _ _ Hconfig Hfile).
    destruct members as [| [name data] members]; [done |]. simpl map.
    by rewrite (not_excluded_no_key _ _ _ _ Hboth).
Qed.

End CountConfigClaims.

Lemma get_amount_of_files_in_config_counts_witness :
  get_amount_of_files_in_config Example.cache_location Example.the_assembler
    SERVER Example.machine0
  = (Return 2, Example.machine0,
     [ZipOpen 0 "cache/config/v7.zip" mode_r ZIP_DEFLATED; ZipClose 0]).
Proof.
  apply (get_amount_of_files_in_config_counts Example.cache_location
           Example.the_manager Example.the_release (Some 1) None Example.machine0
           Example.the_assembler SERVER ["configs/debug.cfg"] Example.machine0
           Example.the_config "v7" Example.config_members).
  - reflexivity.
  - right. split; reflexivity.
  - reflexivity.
  - reflexivity.
Defined.

(** C10, as the claim states it, fails: the config archive of
    [machine_empty_config] has no member, the condition of the comprehension
    is never evaluated, and counting for the side BOTH returns 0. *)
Lemma get_amount_of_files_in_config_BOTH_empty_archive :
  (__init__ Example.the_manager Example.the_release (Some 1) None
     Example.machine_empty_config).1.1 = Return Example.the_assembler
  ∧ get_amount_of_files_in_config Example.cache_location Example.the_assembler
      BOTH Example.machine_empty_config
    = (Return 0, Example.machine_empty_config,
       [ZipOpen 0 "cache/config/v7.zip" mode_r ZIP_DEFLATED; ZipClose 0]).
Proof. split; reflexivity. Qed.

Lemma get_amount_of_files_in_config_BOTH_raises_witness :
  dom (exclusions Example.the_assembler) = ({[ CLIENT; SERVER ]} : gset Side)
  ∧ get_amount_of_files_in_config Example.cache_location Example.the_assembler
      BOTH Example.machine0
    = (Raise (KeyError BOTH), Example.machine0,
       [ZipOpen 0 "cache/config/v7.zip" mode_r ZIP_DEFLATED; ZipClose 0]).
Proof.
  apply (get_amount_of_files_in_config_BOTH_raises Example.cache_location
           Example.the_manager Example.the_release (Some 1) None Example.machine0
           Example.the_assembler Example.machine0
           Example.the_config "v7" Example.config_members).
  - reflexivity.
  - reflexivity.
  - reflexivity.
  - discriminate.
Defined.

(** ** Assembling *)

Section Assemble.

Context {ModInfo GTNHVersion : Type}.
Implicit Types (cls : Overrides ModInfo GTNHVersion)
  (self : GenericAssembler ModInfo GTNHVersion) (side : Side).

(** A run of [assemble] for a valid side, with an output path that is not a
    directory, in terms of the run of the block of its [with] statement. *)
Lemma assemble_run cls self side verbose m archive_name :
  side ∈ ({[ CLIENT; SERVER ]} : gset Side) →
  get_archive_path cls self side = Some archive_name →
  fs m !! archive_name ≠ Some Directory →
  parent_error (fs m) archive_name = None →
  let h := fresh (dom (opened m)) in
  assemble cls self side verbose m
  = (let '(r, m2, t2) :=
       assemble_body cls self side verbose h (machine_at_open archive_name m) in
     (r, set_opened (delete h (opened m2)) m2,
      events_before_open side archive_name m
        ++ ZipOpen h archive_name mode_w ZIP_STORED :: t2 ++ [ZipClose h])).
Proof.
  intros Hside Hpath Hnode Hparent h. unfold assemble.
  rewrite bool_decide_eq_false_2 by (intros Hn; by apply Hn).
  rewrite Hpath. unfold events_before_open.
  unfold bind at 1, os_path_exists.
  destruct (fs m !! archive_name) as [nd |] eqn:Efs.
  - rewrite bool_decide_eq_true_2 by eauto.
    unfold bind at 1. unfold bind at 1. unfold os_remove at 1. rewrite Efs.
    assert (Hrun : ∀ m', (log_warn (msg_previous_archive_deleted archive_name)) m'
                         = (Return tt, m', [Log WARN (msg_previous_archive_deleted archive_name)]))
      by done.
    destruct nd as [ms | c |]; [| | done].
    + simpl. unfold bind at 1. simpl.
      rewrite with_ZipFile_write
        by (simpl; apply open_for_writing_after_remove; [by rewrite Efs | done]).
      simpl. unfold machine_at_open, set_fs, set_opened; simpl.
      rewrite insert_delete_eq. fold h.
      by destruct (assemble_body _ _ _ _ _ _) as [[r m2] t2].
    + simpl. unfold bind at 1. simpl.
      rewrite with_ZipFile_write
        by (simpl; apply open_for_writing_after_remove; [by rewrite Efs | done]).
      simpl. unfold machine_at_open, set_fs, set_opened; simpl.
      rewrite insert_delete_eq. fold h.
      by destruct (assemble_body _ _ _ _ _ _) as [[r m2] t2].
  - rewrite bool_decide_eq_false_2 by (intros [? ?]; done).
    simpl. unfold bind at 1. simpl. unfold bind at 1. simpl.
    rewrite with_ZipFile_write by (by apply open_for_writing_absent).
    simpl. unfold machine_at_open. fold h.
    by destruct (assemble_body _ _ _ _ _ _) as [[r m2] t2].
Qed.

(** C5: for a side that is neither CLIENT nor SERVER, [assemble] raises,
    with the machine untouched and no event: nothing is removed, no archive
    is opened. *)
Theorem assemble_rejects_invalid_side cls self side verbose m :
  side ∉ ({[ CLIENT; SERVER ]} : gset Side) →
  assemble cls self side verbose m
  = (Raise (Exception "Can only assemble release for CLIENT or SERVER, not BOTH"),
     m, []).
Proof.
  intros Hside. unfold assemble. by rewrite bool_decide_eq_true_2.
Qed.

End Assemble.

Section AssembleClaims.

Context {ModInfo GTNHVersion : Type}.
Implicit Types (cls : Overrides ModInfo GTNHVersion)
  (self : GenericAssembler ModInfo GTNHVersion) (side : Side).

(** C6: for a valid side, when a file is at the output path, [assemble]
    removes it from the disk ([os.remove] returns and the path is free
    afterwards, every other path as before), logs a warning and the line
    about the construction, and only then runs the [with] statement that
    opens the archive, on the disk without the file; the removal is no error:
    the outcome of [assemble] is the outcome of the [with] statement.  When
    nothing is at the output path, the [with] statement runs on the machine as
    it was found and nothing is removed before.  When the archive can be
    created, its opening is the next event. *)
Theorem assemble_deletes_previous_archive cls self side verbose m archive_name :
  side ∈ ({[ CLIENT; SERVER ]} : gset Side) →
  get_archive_path cls self side = Some archive_name →
  (∀ nd, fs m !! archive_name = Some nd → nd ≠ Directory →
     let m_removed := set_fs (delete archive_name (fs m)) m in
     os_remove archive_name m = (Return tt, m_removed, [OsRemove archive_name])
     ∧ fs m_removed !! archive_name = None
     ∧ (∀ q, q ≠ archive_name → fs m_removed !! q = fs m !! q)
     ∧ assemble cls self side verbose m
       = (let '(r, m', t) :=
            with_ZipFile archive_name mode_w ZIP_STORED
              (assemble_body cls self side verbose) m_removed in
          (r, m',
           OsRemove archive_name
             :: Log WARN (msg_previous_archive_deleted archive_name)
             :: Log INFO (msg_constructing side archive_name) :: t)))
  ∧ (fs m !! archive_name = None →
     assemble cls self side verbose m
     = (let '(r, m', t) :=
          with_ZipFile archive_name mode_w ZIP_STORED
            (assemble_body cls self side verbose) m in
        (r, m', Log INFO (msg_constructing side archive_name) :: t)))
  ∧ (fs m !! archive_name ≠ Some Directory →
     parent_error (fs m) archive_name = None →
     ∃ rest,
       (assemble cls self side verbose m).2
       = events_before_open side archive_name m
           ++ ZipOpen (fresh (dom (opened m))) archive_name mode_w ZIP_STORED
           :: rest).
Proof.
  intros Hside Hpath. split; [| split].
  - intros nd Hnd Hfile m_removed.
    assert (Hremove : os_remove archive_name m
                      = (Return tt, m_removed, [OsRemove archive_name])).
    { unfold os_remove. rewrite Hnd. by destruct nd. }
    split; [done |]. split; [by subst m_removed; simpl; rewrite lookup_delete_eq |].
    split; [by intros q Hq; subst m_removed; simpl; rewrite lookup_delete_ne |].
    unfold assemble.
    rewrite bool_decide_eq_false_2 by (intros Hn; by apply Hn).
    rewrite Hpath. unfold bind at 1, os_path_exists. rewrite Hnd.
    rewrite bool_decide_eq_true_2 by eauto.
    unfold bind at 1. unfold bind at 1. rewrite Hremove.
    unfold log_warn, emit. unfold bind at 1. unfold log_info, emit.
    unfold ZipFile_default_compression.
    destruct (with_ZipFile _ _ _ _ m_removed) as [[r m'] t]. done.
  - intros Hnone. unfold assemble.
    rewrite bool_decide_eq_false_2 by (intros Hn; by apply Hn).
    rewrite Hpath. unfold bind at 1, os_path_exists. rewrite Hnone.
    rewrite bool_decide_eq_false_2 by (intros [? ?]; done).
    unfold bind at 1. unfold ret. unfold bind at 1. unfold log_info, emit.
    unfold ZipFile_default_compression.
    destruct (with_ZipFile _ _ _ _ m) as [[r m'] t]. done.
  - intros Hnode Hparent.
    rewrite (assemble_run cls self side verbose m archive_name Hside Hpath
               Hnode Hparent).
    destruct (assemble_body _ _ _ _ _ _) as [[r m2] t2]; simpl. eauto.
Qed.

(** C8: once [assemble] has opened the output archive, whatever the block of
    the [with] statement does, return or raise in [add_mods], [get_config]
    or [add_config], the output object is closed when [assemble] is over:
    its handle is not among the open objects, the last event is its closing,
    and the outcome of the block is the outcome of [assemble]. *)
Theorem assemble_closes_archive cls self side verbose m archive_name :
  side ∈ ({[ CLIENT; SERVER ]} : gset Side) →
  get_archive_path cls self side = Some archive_name →
  fs m !! archive_name ≠ Some Directory →
  parent_error (fs m) archive_name = None →
  let h := fresh (dom (opened m)) in
  let block := assemble_body cls self side verbose h (machine_at_open archive_name m) in
  opened (assemble cls self side verbose m).1.2 !! h = None
  ∧ (assemble cls self side verbose m).1.1 = block.1.1
  ∧ (assemble cls self side verbose m).2
    = events_before_open side archive_name m
        ++ ZipOpen h archive_name mode_w ZIP_STORED :: block.2 ++ [ZipClose h].
Proof.
  intros Hside Hpath Hnode Hparent h block.
  rewrite (assemble_run cls self side verbose m archive_name Hside Hpath Hnode
             Hparent).
  fold h. subst block.
  destruct (assemble_body _ _ _ _ _ _) as [[r m2] t2]; simpl.
  by rewrite lookup_delete_eq.
Qed.

End AssembleClaims.

Lemma assemble_rejects_invalid_side_witness :
  assemble Example.zip_methods Example.the_assembler BOTH false Example.machine0
  = (Raise (Exception "Can only assemble release for CLIENT or SERVER, not BOTH"),
     Example.machine0, []).
Proof.
  apply (assemble_rejects_invalid_side Example.zip_methods Example.the_assembler
           BOTH false Example.machine0).
  apply (bool_decide_unpack _). vm_compute. exact I.
Defined.

(** [GenericAssembler] itself, whose [get_archive_path] returns [None], fails
    on [os.path.exists(None)] for a valid side, before it touches the disk. *)
Example assemble_of_the_base_class :
  assemble GenericAssembler_methods Example.the_assembler CLIENT false
    Example.machine0
  = (Raise TypeError, Example.machine0, []).
Proof. reflexivity. Qed.

Lemma CLIENT_valid_side : CLIENT ∈ ({[ CLIENT; SERVER ]} : gset Side).
Proof. set_solver. Qed.

Lemma SERVER_valid_side : SERVER ∈ ({[ CLIENT; SERVER ]} : gset Side).
Proof. set_solver. Qed.

Lemma Example_output_not_a_directory side :
  fs Example.machine0 !! ("releases/" +:+ match side with
                                          | CLIENT => "client"
                                          | SERVER => "server"
                                          | BOTH => "both"
                                          end +:+ ".zip") ≠ Some Directory.
Proof. destruct side; vm_compute; discriminate. Qed.

Lemma Example_output_directory_exists side :
  parent_error (fs Example.machine0)
    ("releases/" +:+ match side with
                     | CLIENT => "client"
                     | SERVER => "server"
                     | BOTH => "both"
                     end +:+ ".zip") = None.
Proof. destruct side; reflexivity. Qed.

Lemma assemble_deletes_previous_archive_witness :
  (let m_removed :=
     set_fs (delete "releases/server.zip" (fs Example.machine0)) Example.machine0 in
   os_remove "releases/server.zip" Example.machine0
   = (Return tt, m_removed, [OsRemove "releases/server.zip"])
   ∧ fs m_removed !! "releases/server.zip" = None
   ∧ (∀ q, q ≠ "releases/server.zip" → fs m_removed !! q = fs Example.machine0 !! q)
   ∧ assemble Example.zip_methods Example.the_assembler SERVER false
       Example.machine0
     = (let '(r, m', t) :=
          with_ZipFile "releases/server.zip" mode_w ZIP_STORED
            (assemble_body Example.zip_methods Example.the_assembler SERVER false)
            m_removed in
        (r, m',
         OsRemove "releases/server.zip"
           :: Log WARN (msg_previous_archive_deleted "releases/server.zip")
           :: Log INFO (msg_constructing SERVER "releases/server.zip") :: t)))
  ∧ assemble Example.zip_methods Example.the_assembler CLIENT false
      Example.machine0
    = (let '(r, m', t) :=
         with_ZipFile "releases/client.zip" mode_w ZIP_STORED
           (assemble_body Example.zip_methods Example.the_assembler CLIENT false)
           Example.machine0 in
       (r, m', Log INFO (msg_constructing CLIENT "releases/client.zip") :: t)).
Proof.
  split.
  - apply (proj1 (assemble_deletes_previous_archive Example.zip_methods
                    Example.the_assembler SERVER false Example.machine0
                    "releases/server.zip" SERVER_valid_side eq_refl)
             (ZipArchive [("old.jar", "old")])).
    + reflexivity.
    + discriminate.
  - apply (proj1 (proj2 (assemble_deletes_previous_archive Example.zip_methods
                           Example.the_assembler CLIENT false Example.machine0
                           "releases/client.zip" CLIENT_valid_side eq_refl))).
    reflexivity.
Defined.

(** C7 (the code departs from the claim): [assemble] for the server, on the
    example disk, opens the output archive for writing with the compression
    [ZIP_STORED], which stores the members uncompressed (it passes no
    [compression] to [ZipFile]), and never with [ZIP_DEFLATED]; the one
    archive opened with [ZIP_DEFLATED] is the config archive
    [get_amount_of_files_in_config] opens for reading. *)
Theorem assemble_opens_archive_uncompressed :
  ZipOpen 0 "releases/server.zip" mode_w ZIP_STORED
    ∈ (assemble Example.zip_methods Example.the_assembler SERVER false
         Example.machine0).2
  ∧ (∀ h p,
       ZipOpen h p mode_w ZIP_DEFLATED
         ∉ (assemble Example.zip_methods Example.the_assembler SERVER false
              Example.machine0).2)
  ∧ (get_amount_of_files_in_config Example.cache_location Example.the_assembler
       SERVER Example.machine0).2
    = [ZipOpen 0 "cache/config/v7.zip" mode_r ZIP_DEFLATED; ZipClose 0].
Proof.
  split; [| split].
  - vm_compute. do 3 apply list_elem_of_further. apply list_elem_of_here.
  - intros h p Hin. vm_compute in Hin.
    repeat (apply elem_of_cons in Hin as [Hin | Hin]; [discriminate |]).
    inversion Hin.
  - reflexivity.
Qed.

Lemma assemble_closes_archive_witness :
  opened (assemble Example.failing_methods Example.the_assembler CLIENT false
            Example.machine0).1.2 !! 0 = None
  ∧ (assemble Example.failing_methods Example.the_assembler CLIENT false
       Example.machine0).1.1
    = Raise (ValueError "No space left on device")
  ∧ (assemble Example.failing_methods Example.the_assembler CLIENT false
       Example.machine0).2
    = [Log INFO (msg_constructing CLIENT "releases/client.zip");
       ZipOpen 0 "releases/client.zip" mode_w ZIP_STORED;
       Log INFO "Adding mods to the archive"; ZipClose 0].
Proof.
  apply (assemble_closes_archive Example.failing_methods Example.the_assembler
           CLIENT false Example.machine0 "releases/client.zip"
           CLIENT_valid_side eq_refl).
  - vm_compute. discriminate.
  - reflexivity.
Defined.

(** ** The count and the copy of the config agree *)

Section ConfigCopy.

Context {ModInfo GTNHVersion : Type}.
Variable get_asset_version_cache_location : GTNHConfig GTNHVersion → GTNHVersion → Path.
Variable per_file_increment : Q.
Implicit Types (self : GenericAssembler ModInfo GTNHVersion) (side : Side).

Lemma writes_to_app h t1 t2 : writes_to h (t1 ++ t2) = writes_to h t1 + writes_to h t2.
Proof.
  induction t1 as [| e t1 IH]; simpl; [done |].
  destruct e; try done. case_bool_decide; simpl; by rewrite IH.
Qed.

Lemma writes_to_progress_events h cb value label :
  writes_to h (progress_events cb value label) = 0.
Proof. by destruct cb. Qed.

(** The loop of the copy, on an output object open for writing whose file
    holds the members [out]: it returns, the file holds [out] followed by
    the members that are not excluded, and the trace has one write into the
    output per such member. *)
Lemma copy_members_run self side archive verbose excluded members :
  exclusions self !! side = Some excluded →
  ∀ m zf out,
    opened m !! archive = Some zf →
    zf_mode zf = mode_w →
    fs m !! zf_filename zf = Some (ZipArchive out) →
    ∃ m' t zf',
      copy_members per_file_increment self side archive verbose members m
      = (Return tt, m', t)
      ∧ opened m' !! archive = Some zf'
      ∧ zf_filename zf' = zf_filename zf
      ∧ zf_mode zf' = mode_w
      ∧ fs m' !! zf_filename zf
        = Some (ZipArchive (out ++ filter (λ mb : member, mb.1 ∉ excluded) members))
      ∧ writes_to archive t = count_not_excluded excluded members.
Proof.
  intros Hkey. unfold count_not_excluded.
  induction members as [| [name data] members IH]; intros m zf out Hopen Hmode Hfile.
  - exists m, [], zf. simpl. rewrite app_nil_r. done.
  - simpl. unfold bind at 1. rewrite Hkey. simpl.
    rewrite filter_cons. simpl.
    destruct (decide (name ∈ excluded)) as [Hin | Hin].
    + rewrite bool_decide_eq_true_2 by done.
      rewrite decide_False by auto.
      destruct (IH m zf out Hopen Hmode Hfile) as (m' & t & zf' & Hrun & ?).
      exists m', t, zf'. by rewrite Hrun.
    + rewrite bool_decide_eq_false_2 by done.
      rewrite decide_True by done.
      unfold bind at 1. unfold ZipFile_writestr at 1. rewrite Hopen, Hmode, Hfile.
      unfold bind at 1. unfold spec_update_progress at 1.
      set (zf1 := {| zf_filename := zf_filename zf; zf_mode := mode_w;
                     zf_compression := zf_compression zf;
                     zf_filelist := zf_filelist zf ++ [(name, data)] |}).
      set (m1 := set_delta_progress _ _ _).
      destruct (IH m1 zf1 (out ++ [(name, data)])) as (m' & t & zf' & Hrun & Ho & Hf & Hm & Hfs & Hw).
      { subst m1; simpl. apply lookup_insert_eq. }
      { reflexivity. }
      { subst m1; simpl. apply lookup_insert_eq. }
      rewrite Hrun. simpl in Hf, Hfs. eexists m', _, zf'.
      split; [reflexivity |]. split; [done |]. split; [done |]. split; [done |]. split.
      * rewrite Hfs. by rewrite <- app_assoc.
      * simpl. rewrite bool_decide_eq_true_2 by done.
        rewrite !writes_to_app, !writes_to_progress_events. simpl.
        by rewrite Hw.
Qed.

(** [spec_add_config] on a config archive that is in the cache. *)
Lemma spec_add_config_run self side archive verbose excluded m zf out
    config_ version members :
  exclusions self !! side = Some excluded →
  fs m !! get_asset_version_cache_location config_ version = Some (ZipArchive members) →
  opened m !! archive = Some zf →
  zf_mode zf = mode_w →
  fs m !! zf_filename zf = Some (ZipArchive out) →
  ∃ m' t,
    spec_add_config get_asset_version_cache_location per_file_increment
      self side (config_, version) archive verbose m
    = (Return tt, m', t)
    ∧ fs m' !! zf_filename zf
      = Some (ZipArchive (out ++ filter (λ mb : member, mb.1 ∉ excluded) members))
    ∧ writes_to archive t = count_not_excluded excluded members.
Proof.
  intros Hkey Hconfig Hopen Hmode Hfile. unfold spec_add_config.
  erewrite with_ZipFile_read by done.
  unfold bind at 1. unfold ZipFile_members at 1. simpl.
  rewrite lookup_insert_eq. simpl.
  assert (Hne : fresh (dom (opened m)) ≠ archive).
  { intros Heq. pose proof (fresh_handle_closed m) as Hc.
    rewrite Heq in Hc. congruence. }
  set (h := fresh (dom (opened m))) in *.
  set (m1 := set_opened _ m).
  destruct (copy_members_run self side archive verbose excluded members Hkey
              m1 zf out) as (m' & t & zf' & Hrun & _ & _ & _ & Hfs & Hw).
  { subst m1; simpl. by rewrite lookup_insert_ne. }
  { done. }
  { done. }
  rewrite Hrun. eexists _, _. split; [done |]. split; [done |].
  simpl.
  rewrite writes_to_app. simpl. lia.
Qed.

End ConfigCopy.

Section ConfigCopyClaims.

Context {ModInfo GTNHVersion : Type}.
Variable get_asset_version_cache_location : GTNHConfig GTNHVersion → GTNHVersion → Path.
Variable per_file_increment : Q.
Implicit Types (self : GenericAssembler ModInfo GTNHVersion) (side : Side).

(** C9: for the side CLIENT and for the side SERVER, on an assembler built
    by [__init__], with the config resolved, its archive in the cache and an
    output archive open for writing, the number
    [get_amount_of_files_in_config] returns is the number of members
    [add_config] writes into the output archive: that many writes are in its
    trace and that many members are added to the file of the output. *)
Theorem count_agrees_with_copied_config
    gtnh_modpack release_ tcb gcb m0 self side m config_ version members
    archive zf out verbose :
  (__init__ gtnh_modpack release_ tcb gcb m0).1.1 = Return self →
  side ∈ ({[ CLIENT; SERVER ]} : gset Side) →
  get_config self = Return (config_, version) →
  fs m !! get_asset_version_cache_location config_ version = Some (ZipArchive members) →
  opened m !! archive = Some zf →
  zf_mode zf = mode_w →
  fs m !! zf_filename zf = Some (ZipArchive out) →
  ∃ n copied m' t,
    (get_amount_of_files_in_config get_asset_version_cache_location self side m).1.1
    = Return n
    ∧ spec_add_config get_asset_version_cache_location per_file_increment
        self side (config_, version) archive verbose m
      = (Return tt, m', t)
    ∧ writes_to archive t = n
    ∧ fs m' !! zf_filename zf = Some (ZipArchive (out ++ copied))
    ∧ length copied = n.
Proof.
  intros Hinit Hside Hconfig Hcache Hopen Hmode Hfile.
  destruct (init_exclusions _ _ _ _ _ _ Hinit) as (Hclient & Hserver & _).
  assert (Hkey : ∃ excluded, exclusions self !! side = Some excluded).
  { apply elem_of_union in Hside as [Hside | Hside];
      apply elem_of_singleton in Hside; subst side; eauto. }
  destruct Hkey as [excluded Hkey].
  destruct (spec_add_config_run get_asset_version_cache_location
              per_file_increment self side archive verbose excluded m zf out
              config_ version members Hkey Hcache Hopen Hmode Hfile)
    as (m' & t & Hrun & Hfs & Hw).
  exists (count_not_excluded excluded members),
    (filter (λ mb : member, mb.1 ∉ excluded) members), m', t.
  split; [| done].
  rewrite (get_amount_of_files_in_config_run _ _ _ _ _ _ _ Hconfig Hcache).
  simpl. by rewrite (not_excluded_key _ _ _ _ Hkey), length_filter_names.
Qed.

End ConfigCopyClaims.

Lemma count_agrees_with_copied_config_witness :
  ∃ n copied m' t,
    (get_amount_of_files_in_config Example.cache_location Example.the_assembler
       SERVER (machine_at_open "releases/server.zip" Example.machine0)).1.1
    = Return n
    ∧ spec_add_config Example.cache_location (1 # 4)%Q Example.the_assembler
        SERVER (Example.the_config, "v7") 0 false
        (machine_at_open "releases/server.zip" Example.machine0)
      = (Return tt, m', t)
    ∧ writes_to 0 t = n
    ∧ fs m' !! "releases/server.zip" = Some (ZipArchive ([] ++ copied))
    ∧ length copied = n.
Proof.
  apply (count_agrees_with_copied_config Example.cache_location (1 # 4)%Q
           Example.the_manager Example.the_release (Some 1) None Example.machine0
           Example.the_assembler SERVER
           (machine_at_open "releases/server.zip" Example.machine0)
           Example.the_config "v7" Example.config_members
           0 (output_ZipFile "releases/server.zip") [] false).
  - reflexivity.
  - exact SERVER_valid_side.
  - reflexivity.
  - reflexivity.
  - reflexivity.
  - reflexivity.
  - reflexivity.
Defined.

(** * Further properties of the methods *)

(** ** The progress attribute *)

(** X1: every assembler has its own progress.  When an assembler of the
    machine has had its progress set and another assembler is then built,
    the new one is another object and reads 0, the first still reads what was
    set, and setting the progress of the new one changes what the new one
    reads and not what the first reads; building touches neither the disk
    nor the open archives. *)
Theorem progress_is_per_assembler {ModInfo GTNHVersion : Type}
    (gtnh_modpack : GTNHModpackManager ModInfo GTNHVersion) release_ tcb gcb
    (self : GenericAssembler ModInfo GTNHVersion) (d : Q) (m : Machine) :
  object_id self ∈ objects m →
  let built := __init__ gtnh_modpack release_ tcb gcb (set_progress self d m).1.2 in
  ∃ other,
    built.1.1 = Return other
    ∧ object_id other ≠ object_id self
    ∧ (get_progress other built.1.2).1.1 = Return 0%Q
    ∧ (get_progress self built.1.2).1.1 = Return d
    ∧ (∀ d', (get_progress self (set_progress other d' built.1.2).1.2).1.1 = Return d)
    ∧ (∀ d', (get_progress other (set_progress other d' built.1.2).1.2).1.1 = Return d')
    ∧ fs built.1.2 = fs m
    ∧ opened built.1.2 = opened m.
Proof.
  intros Hself built. subst built. unfold __init__, set_progress, get_progress; simpl.
  assert (Hne : fresh (objects m) ≠ object_id self).
  { intros Heq. rewrite <- Heq in Hself. by apply is_fresh in Hself. }
  eexists. split; [reflexivity |]. simpl.
  split; [done |].
  repeat split; intros; repeat case_bool_decide; congruence.
Qed.

Lemma progress_is_per_assembler_witness :
  let m := (__init__ Example.the_manager Example.the_release (Some 1) None
              Example.machine0).1.2 in
  let built := __init__ Example.the_manager Example.a_corrupt_release None None
                 (set_progress Example.the_assembler (1 # 4)%Q m).1.2 in
  ∃ other,
    built.1.1 = Return other
    ∧ object_id other ≠ object_id Example.the_assembler
    ∧ (get_progress other built.1.2).1.1 = Return 0%Q
    ∧ (get_progress Example.the_assembler built.1.2).1.1 = Return (1 # 4)%Q
    ∧ (∀ d', (get_progress Example.the_assembler
                (set_progress other d' built.1.2).1.2).1.1 = Return (1 # 4)%Q)
    ∧ (∀ d', (get_progress other (set_progress other d' built.1.2).1.2).1.1
             = Return d')
    ∧ fs built.1.2 = fs m
    ∧ opened built.1.2 = opened m.
Proof.
  apply (progress_is_per_assembler Example.the_manager Example.a_corrupt_release
           None None Example.the_assembler (1 # 4)%Q
           (__init__ Example.the_manager Example.the_release (Some 1) None
              Example.machine0).1.2).
  apply (bool_decide_unpack _). vm_compute. exact I.
Defined.

(** ** Resolution of the mods, continued *)

Section ResolveModsMore.

Context {ModInfo GTNHVersion : Type}.
Implicit Types (self : GenericAssembler ModInfo GTNHVersion) (side : Side).

Lemma length_resolved_in_order
    (get_mod : string → string → gset Side → ModSource → option (ModInfo * GTNHVersion))
    valid_sides source items :
  (length (resolved_in_order get_mod valid_sides source items) ≤ length items)%nat
  ∧ (length (resolved_in_order get_mod valid_sides source items) = length items
     ↔ ∀ name version, (name, version) ∈ items →
         is_Some (get_mod name version valid_sides source)).
Proof.
  induction items as [| [name version] items [IHle IHeq]]; simpl.
  - split; [lia |]. split; [| done]. intros _ n v Hin. by apply elem_of_nil in Hin.
  - destruct (get_mod name version valid_sides source) as [mv |] eqn:E; simpl.
    + split; [lia |]. split.
      * intros Hlen n v Hin. apply elem_of_cons in Hin as [[= -> ->] | Hin]; [eauto |].
        apply IHeq; [lia | done].
      * intros Hall. f_equal. apply IHeq. intros n v Hin. apply Hall. by right.
    + split; [lia |]. split; [lia |].
      intros Hall. destruct (Hall name version) as [mv Hmv]; [by left |]. congruence.
Qed.

(** X2: [get_mods] returns at most one pair per entry of the two mod maps,
    and as many pairs as the maps have entries exactly when every lookup it
    makes resolves. *)
Theorem get_mods_drops_nothing_iff_all_resolve self side :
  let get_mod := get_mod_and_version (assets (modpack_manager self)) in
  let entries := github_mods (release self) ++ external_mods (release self) in
  (length (get_mods self side) ≤ length entries)%nat
  ∧ (length (get_mods self side) = length entries
     ↔ ∀ name version, (name, version) ∈ entries →
         is_Some (get_mod name version {[ side; BOTH ]} github)).
Proof.
  intros get_mod entries. unfold get_mods. fold get_mod.
  rewrite filter_None_app, !filter_None_resolve_items. subst entries.
  rewrite !length_app.
  destruct (length_resolved_in_order get_mod {[side; BOTH]} github
              (github_mods (release self))) as [Hle1 Heq1].
  destruct (length_resolved_in_order get_mod {[side; BOTH]} github
              (external_mods (release self))) as [Hle2 Heq2].
  split; [lia |]. split.
  - intros Hlen n v Hin. apply elem_of_app in Hin as [Hin | Hin].
    + apply Heq1; [lia | done].
    + apply Heq2; [lia | done].
  - intros Hall. f_equal.
    + apply Heq1. intros n v Hin. apply Hall, elem_of_app. by left.
    + apply Heq2. intros n v Hin. apply Hall, elem_of_app. by right.
Qed.

End ResolveModsMore.

Lemma get_mods_reads_github_only_witness :
  get_mods Example.the_assembler CLIENT
  = get_mods Example.assembler_without_external CLIENT.
Proof.
  apply (get_mods_reads_github_only Example.the_assembler
           Example.assembler_without_external CLIENT).
  - reflexivity.
  - intros name version valid_sides. simpl.
    destruct (bool_decide (BOTH ∈ valid_sides)); reflexivity.
Defined.

(** ** Counting the files of the config, continued *)

Section CountConfigMore.

Context {ModInfo GTNHVersion : Type}.
Variable get_asset_version_cache_location : GTNHConfig GTNHVersion → GTNHVersion → Path.
Implicit Types (self : GenericAssembler ModInfo GTNHVersion) (side : Side).

(** X4: when the modpack has no config version of the name the release
    gives, [get_amount_of_files_in_config] raises [AssertionError] for every
    side, BOTH included, before it opens any file: the machine is as before
    and the trace is empty. *)
Theorem get_amount_of_files_in_config_unknown_version self side m :
  get_version (config (assets (modpack_manager self)))
    (release_config (release self)) = None →
  get_amount_of_files_in_config get_asset_version_cache_location self side m
  = (Raise AssertionError, m, []).
Proof.
  intros Hversion. unfold get_amount_of_files_in_config, bind, get_config.
  by rewrite Hversion.
Qed.


(** X6: the count is at most the number of members of the config archive,
    and it is that number exactly when no member has its path in the
    exclusion list of the side. *)
Theorem get_amount_of_files_in_config_bounds
    self side excluded m config_ version members :
  exclusions self !! side = Some excluded →
  get_config self = Return (config_, version) →
  fs m !! get_asset_version_cache_location config_ version = Some (ZipArchive members) →
  ∃ n,
    (get_amount_of_files_in_config get_asset_version_cache_location self side m).1.1
    = Return n
    ∧ (n ≤ length members)%nat
    ∧ (n = length members ↔ ∀ mb : member, mb ∈ members → mb.1 ∉ excluded).
Proof.
  intros Hkey Hconfig Hfile.
  rewrite (get_amount_of_files_in_config_run _ _ _ _ _ _ _ Hconfig Hfile).
  rewrite (not_excluded_key _ _ _ _ Hkey), length_filter_names. simpl.
  exists (count_not_excluded excluded members). split; [done |].
  unfold count_not_excluded. clear Hfile.
  induction members as [| mb members [IHle IHeq]]; simpl.
  - split; [lia |]. split; [| done]. intros _ x Hin. by apply elem_of_nil in Hin.
  - rewrite filter_cons. destruct (decide (mb.1 ∉ excluded)) as [Hout | Hin]; simpl.
    + split; [lia |]. split.
      * intros Hlen x Hx. apply elem_of_cons in Hx as [-> | Hx]; [done |].
        apply IHeq; [lia | done].
      * intros Hall. f_equal. apply IHeq. intros x Hx. apply Hall. by right.
    + split; [lia |]. split; [lia |].
      intros Hall. destruct Hin. apply Hall. by left.
Qed.

(** X7: the exclusion list of a side counts as a set: two assemblers over
    the same config whose exclusion lists for the side have the same
    elements, in whatever order and however often, get the same count. *)
Theorem get_amount_of_files_in_config_exclusions_as_set
    self self' side excluded excluded' m config_ version members :
  exclusions self !! side = Some excluded →
  exclusions self' !! side = Some excluded' →
  (∀ path : string, path ∈ excluded ↔ path ∈ excluded') →
  get_config self = Return (config_, version) →
  get_config self' = Return (config_, version) →
  fs m !! get_asset_version_cache_location config_ version = Some (ZipArchive members) →
  get_amount_of_files_in_config get_asset_version_cache_location self side m
  = get_amount_of_files_in_config get_asset_version_cache_location self' side m.
Proof.
  intros Hkey Hkey' Hsame Hconfig Hconfig' Hfile.
  rewrite (get_amount_of_files_in_config_run _ _ _ _ _ _ _ Hconfig Hfile).
  rewrite (get_amount_of_files_in_config_run _ _ _ _ _ _ _ Hconfig' Hfile).
  rewrite (not_excluded_key _ _ _ _ Hkey), (not_excluded_key _ _ _ _ Hkey').
  assert (Hfilter : ∀ names : list string,
            filter (λ name, name ∉ excluded) names
            = filter (λ name, name ∉ excluded') names).
  { induction names as [| name names IH]; [done |].
    rewrite !filter_cons.
    destruct (decide (name ∉ excluded)) as [Hout | Hin];
      destruct (decide (name ∉ excluded')) as [Hout' | Hin'].
    - by rewrite IH.
    - destruct Hin'. by rewrite <- Hsame.
    - destruct Hin. by rewrite Hsame.
    - done. }
  by rewrite Hfilter.
Qed.

End CountConfigMore.

Lemma get_amount_of_files_in_config_unknown_version_witness :
  get_amount_of_files_in_config Example.cache_location
    (Example.new_assembler Example.a_corrupt_release) BOTH Example.machine0
  = (Raise AssertionError, Example.machine0, []).
Proof.
  apply (get_amount_of_files_in_config_unknown_version Example.cache_location
           (Example.new_assembler Example.a_corrupt_release) BOTH Example.machine0).
  reflexivity.
Defined.


Lemma get_amount_of_files_in_config_bounds_witness :
  ∃ n,
    (get_amount_of_files_in_config Example.cache_location Example.the_assembler
       SERVER Example.machine0).1.1 = Return n
    ∧ (n ≤ length Example.config_members)%nat
    ∧ (n = length Example.config_members
       ↔ ∀ mb : member, mb ∈ Example.config_members → mb.1 ∉ ["configs/debug.cfg"]).
Proof.
  apply (get_amount_of_files_in_config_bounds Example.cache_location
           Example.the_assembler SERVER ["configs/debug.cfg"] Example.machine0
           Example.the_config "v7" Example.config_members).
  - reflexivity.
  - reflexivity.
  - reflexivity.
Defined.

Lemma get_amount_of_files_in_config_exclusions_as_set_witness :
  get_amount_of_files_in_config Example.cache_location Example.the_assembler
    SERVER Example.machine0
  = get_amount_of_files_in_config Example.cache_location
      Example.assembler_exclusions_repeated SERVER Example.machine0.
Proof.
  apply (get_amount_of_files_in_config_exclusions_as_set Example.cache_location
           Example.the_assembler Example.assembler_exclusions_repeated SERVER
           ["configs/debug.cfg"] ["configs/debug.cfg"; "configs/debug.cfg"]
           Example.machine0 Example.the_config "v7" Example.config_members).
  - reflexivity.
  - reflexivity.
  - intros path. rewrite !elem_of_cons. tauto.
  - reflexivity.
  - reflexivity.
  - reflexivity.
Defined.

(** ** Assembling, continued *)

Section AssembleMore.

Context {ModInfo GTNHVersion : Type}.
Implicit Types (cls : Overrides ModInfo GTNHVersion)
  (self : GenericAssembler ModInfo GTNHVersion) (side : Side).

(** The block of the [with] statement, by the outcome of [add_mods], of
    [get_config] and of [add_config]. *)
Lemma assemble_body_run cls self side verbose archive m :
  assemble_body cls self side verbose archive m
  = (let '(r1, m1, t1) :=
       add_mods cls self side (get_mods self side) archive verbose m in
     match r1 with
     | Raise e => (Raise e, m1, Log INFO "Adding mods to the archive" :: t1)
     | Return _ =>
         match get_config self with
         | Raise e =>
             (Raise e, m1,
              Log INFO "Adding mods to the archive"
                :: t1 ++ [Log INFO "Adding config to the archive"])
         | Return cv =>
             let '(r2, m2, t2) := add_config cls self side cv archive verbose m1 in
             (r2, m2,
              Log INFO "Adding mods to the archive"
                :: t1 ++ Log INFO "Adding config to the archive"
                :: t2 ++ match r2 with
                         | Return _ => [Log INFO "Archive created successfully!"]
                         | Raise _ => []
                         end)
         end
     end).
Proof.
  unfold assemble_body, bind, log_info, emit, lift; simpl.
  destruct (add_mods cls self side (get_mods self side) archive verbose m)
    as [[[[] | e1] m1] t1]; simpl; [| done].
  destruct (get_config self) as [cv | e]; simpl; [| done].
  destruct (add_config cls self side cv archive verbose m1)
    as [[[[] | e2] m2] t2]; simpl.
  - done.
  - by rewrite app_nil_r.
Qed.

End AssembleMore.

Section AssembleOutcomes.

Context {ModInfo GTNHVersion : Type}.
Implicit Types (cls : Overrides ModInfo GTNHVersion)
  (self : GenericAssembler ModInfo GTNHVersion) (side : Side).

(** X8: when [add_mods] raises, [assemble] raises the same exception after
    closing the archive, and neither [get_config] nor [add_config] has run:
    the trace holds the events of [add_mods] between the log line about the
    mods and the closing, and the machine is the one [add_mods] left, with
    the archive closed. *)
Theorem assemble_add_mods_raises cls self side verbose m archive_name e m1 t1 :
  side ∈ ({[ CLIENT; SERVER ]} : gset Side) →
  get_archive_path cls self side = Some archive_name →
  fs m !! archive_name ≠ Some Directory →
  parent_error (fs m) archive_name = None →
  let h := fresh (dom (opened m)) in
  add_mods cls self side (get_mods self side) h verbose
    (machine_at_open archive_name m) = (Raise e, m1, t1) →
  assemble cls self side verbose m
  = (Raise e, set_opened (delete h (opened m1)) m1,
     events_before_open side archive_name m
       ++ ZipOpen h archive_name mode_w ZIP_STORED
       :: (Log INFO "Adding mods to the archive" :: t1) ++ [ZipClose h]).
Proof.
  intros Hside Hpath Hnode Hparent h Hmods.
  rewrite (assemble_run cls self side verbose m archive_name Hside Hpath Hnode
             Hparent).
  fold h. rewrite assemble_body_run, Hmods. done.
Qed.

(** X9: when the modpack has no config version of the name the release
    gives, [assemble] finds out only after it has removed the previous
    archive, created the new one and run [add_mods]: it raises
    [AssertionError], [add_config] has not run, and the archive is closed. *)
Theorem assemble_unknown_config_version cls self side verbose m archive_name m1 t1 :
  side ∈ ({[ CLIENT; SERVER ]} : gset Side) →
  get_archive_path cls self side = Some archive_name →
  fs m !! archive_name ≠ Some Directory →
  parent_error (fs m) archive_name = None →
  let h := fresh (dom (opened m)) in
  add_mods cls self side (get_mods self side) h verbose
    (machine_at_open archive_name m) = (Return tt, m1, t1) →
  get_version (config (assets (modpack_manager self)))
    (release_config (release self)) = None →
  assemble cls self side verbose m
  = (Raise AssertionError, set_opened (delete h (opened m1)) m1,
     events_before_open side archive_name m
       ++ ZipOpen h archive_name mode_w ZIP_STORED
       :: (Log INFO "Adding mods to the archive"
             :: t1 ++ [Log INFO "Adding config to the archive"])
       ++ [ZipClose h]).
Proof.
  intros Hside Hpath Hnode Hparent h Hmods Hversion.
  rewrite (assemble_run cls self side verbose m archive_name Hside Hpath Hnode
             Hparent).
  fold h. rewrite assemble_body_run, Hmods. unfold get_config. by rewrite Hversion.
Qed.

(** X10: when [add_mods] returns and the config resolves, [add_config] runs
    on the machine [add_mods] left, with the pair [get_config] returned and
    the handle of the output archive; its outcome is the outcome of
    [assemble], and the log line of success is written exactly when it
    returns. *)
Theorem assemble_runs_add_config_after_add_mods
    cls self side verbose m archive_name m1 t1 cv r2 m2 t2 :
  side ∈ ({[ CLIENT; SERVER ]} : gset Side) →
  get_archive_path cls self side = Some archive_name →
  fs m !! archive_name ≠ Some Directory →
  parent_error (fs m) archive_name = None →
  let h := fresh (dom (opened m)) in
  add_mods cls self side (get_mods self side) h verbose
    (machine_at_open archive_name m) = (Return tt, m1, t1) →
  get_config self = Return cv →
  add_config cls self side cv h verbose m1 = (r2, m2, t2) →
  assemble cls self side verbose m
  = (r2, set_opened (delete h (opened m2)) m2,
     events_before_open side archive_name m
       ++ ZipOpen h archive_name mode_w ZIP_STORED
       :: (Log INFO "Adding mods to the archive"
             :: t1 ++ Log INFO "Adding config to the archive"
             :: t2 ++ match r2 with
                      | Return _ => [Log INFO "Archive created successfully!"]
                      | Raise _ => []
                      end)
       ++ [ZipClose h]).
Proof.
  intros Hside Hpath Hnode Hparent h Hmods Hconfig Hadd.
  rewrite (assemble_run cls self side verbose m archive_name Hside Hpath Hnode
             Hparent).
  fold h. by rewrite assemble_body_run, Hmods, Hconfig, Hadd.
Qed.

(** X11: when a directory is at the output path, [assemble] raises the
    error of [os.remove] and stops there: nothing is logged, no archive is
    opened, no method of the subclass runs, and the machine is as before. *)
Theorem assemble_directory_at_output_path cls self side verbose m archive_name :
  side ∈ ({[ CLIENT; SERVER ]} : gset Side) →
  get_archive_path cls self side = Some archive_name →
  fs m !! archive_name = Some Directory →
  assemble cls self side verbose m
  = (Raise (IsADirectoryError archive_name), m, []).
Proof.
  intros Hside Hpath Hdir. unfold assemble.
  rewrite bool_decide_eq_false_2 by (intros Hn; by apply Hn).
  rewrite Hpath. unfold bind at 1, os_path_exists. rewrite Hdir.
  rewrite bool_decide_eq_true_2 by eauto.
  unfold bind at 1. unfold bind at 1. unfold os_remove at 1. by rewrite Hdir.
Qed.

(** X12: [GenericAssembler] as it stands, with no method overridden, cannot
    assemble: for an invalid side [assemble] raises its own exception, for a
    valid side it raises [TypeError] on the [None] that [get_archive_path]
    returns; either way the machine is as before and the trace is empty. *)
Theorem assemble_without_overrides_raises self side verbose m :
  assemble GenericAssembler_methods self side verbose m
  = (Raise (if bool_decide (side ∈ ({[ CLIENT; SERVER ]} : gset Side))
            then TypeError
            else Exception "Can only assemble release for CLIENT or SERVER, not BOTH"),
     m, []).
Proof.
  unfold assemble. destruct side; reflexivity.
Qed.

(** X13: a subclass that overrides [get_archive_path] alone assembles an
    empty archive: when the directory of the output path is there and the
    config resolves, [assemble] returns, the output
    path holds an archive without members, every other path of the disk,
    the progress and the open archives are as before; and assembling once
    more from there removes that archive and ends in the same machine. *)
Theorem assemble_with_inherited_methods
    (archive_path : GenericAssembler ModInfo GTNHVersion → Side → option Path)
    self side verbose m archive_name cv :
  side ∈ ({[ CLIENT; SERVER ]} : gset Side) →
  archive_path self side = Some archive_name →
  fs m !! archive_name ≠ Some Directory →
  parent_error (fs m) archive_name = None →
  get_config self = Return cv →
  let cls := inherit_all_but_archive_path archive_path in
  let m' := set_fs (<[archive_name := ZipArchive []]> (fs m)) m in
  (assemble cls self side verbose m).1 = (Return tt, m')
  ∧ (assemble cls self side verbose m').1 = (Return tt, m')
  ∧ ∃ rest, (assemble cls self side verbose m').2 = OsRemove archive_name :: rest.
Proof.
  intros Hside Hpath Hnode Hparent Hconfig cls m'.
  assert (Hrun : ∀ m0, fs m0 !! archive_name ≠ Some Directory →
            parent_error (fs m0) archive_name = None →
            (assemble cls self side verbose m0).1
            = (Return tt, set_fs (<[archive_name := ZipArchive []]> (fs m0)) m0)).
  { intros m0 Hnode0 Hparent0.
    rewrite (assemble_run cls self side verbose m0 archive_name Hside Hpath
               Hnode0 Hparent0).
    rewrite assemble_body_run. simpl. rewrite Hconfig. simpl.
    destruct m0 as [d ob f o]; unfold set_opened, set_fs; simpl. do 2 f_equal.
    apply delete_insert_id,
      (fresh_handle_closed
         {| delta_progress := d; objects := ob; fs := f; opened := o |}). }
  assert (Hfile' : fs m' !! archive_name = Some (ZipArchive [])).
  { subst m'; simpl. apply lookup_insert_eq. }
  assert (Hparent' : parent_error (fs m') archive_name = None).
  { subst m'; simpl. unfold parent_error in *.
    destruct (all_slashes (posixpath_dirname archive_name)); [done |].
    destruct (decide (posixpath_dirname archive_name = archive_name)) as [Heq | Hne].
    - rewrite Heq in Hparent.
      destruct (fs m !! archive_name) as [[ms | c |] |]; done.
    - by rewrite lookup_insert_ne. }
  split; [by apply Hrun |]. split.
  - rewrite Hrun by (done || rewrite Hfile'; congruence).
    subst m'. destruct m as [d ob f o]; unfold set_fs; simpl.
    by rewrite insert_insert_eq.
  - rewrite (assemble_run cls self side verbose m' archive_name Hside Hpath)
      by (done || rewrite Hfile'; congruence).
    destruct (assemble_body _ _ _ _ _ _) as [[r m2] t2]; simpl.
    unfold events_before_open. rewrite Hfile'.
    rewrite bool_decide_eq_true_2 by eauto. simpl. eauto.
Qed.

(** X14: a failed assembly costs the previous archive: when [add_mods]
    raises without having written anything, [assemble] raises the same
    exception and the output path holds an archive without members, whatever
    it held before; the rest of the machine is as before. *)
Theorem assemble_failure_leaves_empty_archive
    cls self side verbose m archive_name e t1 :
  side ∈ ({[ CLIENT; SERVER ]} : gset Side) →
  get_archive_path cls self side = Some archive_name →
  fs m !! archive_name ≠ Some Directory →
  parent_error (fs m) archive_name = None →
  add_mods cls self side (get_mods self side) (fresh (dom (opened m))) verbose
    (machine_at_open archive_name m)
  = (Raise e, machine_at_open archive_name m, t1) →
  (assemble cls self side verbose m).1
  = (Raise e, set_fs (<[archive_name := ZipArchive []]> (fs m)) m).
Proof.
  intros Hside Hpath Hnode Hparent Hmods.
  rewrite (assemble_run cls self side verbose m archive_name Hside Hpath Hnode
             Hparent).
  rewrite assemble_body_run, Hmods. simpl.
  destruct m as [d ob f o]; unfold set_opened, set_fs; simpl. do 2 f_equal.
  apply delete_insert_id,
    (fresh_handle_closed {| delta_progress := d; objects := ob; fs := f; opened := o |}).
Qed.


End AssembleOutcomes.

Lemma assemble_add_mods_raises_witness :
  ∃ m' t,
    assemble Example.failing_methods Example.the_assembler CLIENT false
      Example.machine0
    = (Raise (ValueError "No space left on device"), m', t).
Proof.
  eexists _, _.
  eapply (assemble_add_mods_raises Example.failing_methods Example.the_assembler
            CLIENT false Example.machine0 "releases/client.zip"
            (ValueError "No space left on device") _ _
            CLIENT_valid_side eq_refl (Example_output_not_a_directory CLIENT)
            (Example_output_directory_exists CLIENT)).
  reflexivity.
Defined.

Lemma assemble_unknown_config_version_witness :
  ∃ m' t,
    assemble Example.zip_methods (Example.new_assembler Example.a_corrupt_release)
      SERVER false Example.machine0
    = (Raise AssertionError, m', t).
Proof.
  eexists _, _.
  eapply (assemble_unknown_config_version Example.zip_methods
            (Example.new_assembler Example.a_corrupt_release)
            SERVER false Example.machine0 "releases/server.zip" _ _
            SERVER_valid_side eq_refl (Example_output_not_a_directory SERVER)
            (Example_output_directory_exists SERVER)).
  - reflexivity.
  - reflexivity.
Defined.

Lemma assemble_runs_add_config_after_add_mods_witness :
  ∃ m' t,
    assemble Example.failing_config_methods Example.the_assembler CLIENT false
      Example.machine0
    = (Raise (ValueError "No space left on device"), m', t).
Proof.
  eexists _, _.
  eapply (assemble_runs_add_config_after_add_mods Example.failing_config_methods
            Example.the_assembler CLIENT false Example.machine0
            "releases/client.zip" _ _ (Example.the_config, "v7")
            (Raise (ValueError "No space left on device")) _ _
            CLIENT_valid_side eq_refl (Example_output_not_a_directory CLIENT)
            (Example_output_directory_exists CLIENT)).
  - reflexivity.
  - reflexivity.
  - reflexivity.
Defined.

Lemma assemble_directory_at_output_path_witness :
  assemble Example.zip_methods Example.the_assembler CLIENT false
    Example.machine_directory_at_output
  = (Raise (IsADirectoryError "releases/client.zip"),
     Example.machine_directory_at_output, []).
Proof.
  apply (assemble_directory_at_output_path Example.zip_methods
           Example.the_assembler CLIENT false Example.machine_directory_at_output
           "releases/client.zip" CLIENT_valid_side eq_refl).
  reflexivity.
Defined.

Lemma assemble_with_inherited_methods_witness :
  (assemble (inherit_all_but_archive_path Example.archive_path)
     Example.the_assembler SERVER false Example.machine0).1
  = (Return tt,
     set_fs (<["releases/server.zip" := ZipArchive []]> (fs Example.machine0))
       Example.machine0).
Proof.
  apply (assemble_with_inherited_methods Example.archive_path
           Example.the_assembler SERVER false Example.machine0
           "releases/server.zip" (Example.the_config, "v7")
           SERVER_valid_side eq_refl (Example_output_not_a_directory SERVER)
           (Example_output_directory_exists SERVER) eq_refl).
Defined.

Lemma assemble_failure_leaves_empty_archive_witness :
  (assemble Example.failing_methods Example.the_assembler SERVER false
     Example.machine0).1
  = (Raise (ValueError "No space left on device"),
     set_fs (<["releases/server.zip" := ZipArchive []]> (fs Example.machine0))
       Example.machine0).
Proof.
  apply (assemble_failure_leaves_empty_archive Example.failing_methods
           Example.the_assembler SERVER false Example.machine0
           "releases/server.zip" (ValueError "No space left on device") []
           SERVER_valid_side eq_refl (Example_output_not_a_directory SERVER)
            (Example_output_directory_exists SERVER)).
  reflexivity.
Defined.

